(** * Twisted's setuptools glue ([src/twisted/python/_setup.py])

    A shallow embedding of the module and the properties its description
    states about it.  Python objects that the module mutates in place (the
    [define_macros] lists of the extensions, the files of the working
    directory) live in explicit stores; code that can raise runs in a state
    and exception monad. *)

From Stdlib Require Import String Ascii List ZArith Lia Bool.
From stdpp Require Import base gmap strings list fin_maps.

Open Scope string_scope.
Open Scope list_scope.

(** ** Exceptions and the state/exception monad *)

(** The exception classes the module meets.  [FileNotFoundError] is a
    subclass of [OSError], which Python 3 also calls [EnvironmentError]. *)
Inductive exn : Type :=
| CompileError
| FileNotFoundError
| OSError
| TypeError
| AssertionError
| DistutilsError.

(** [isinstance(e, EnvironmentError)] *)
Definition is_EnvironmentError (e : exn) : bool :=
  match e with
  | FileNotFoundError | OSError => true
  | _ => false
  end.

(** [isinstance(e, CompileError)] *)
Definition is_CompileError (e : exn) : bool :=
  match e with
  | CompileError => true
  | _ => false
  end.

(** A computation over a state [S] that returns an [A] or raises. *)
Definition M (S A : Type) : Type := S -> (exn + A) * S.

Definition ret {S A} (a : A) : M S A := fun s => (inr a, s).

Definition raise {S A} (e : exn) : M S A := fun s => (inl e, s).

Definition bind {S A B} (m : M S A) (f : A -> M S B) : M S B :=
  fun s =>
    match m s with
    | (inr a, s') => f a s'
    | (inl e, s') => (inl e, s')
    end.

Definition get {S} : M S S := fun s => (inr s, s).

Definition modify {S} (f : S -> S) : M S unit := fun s => (inr tt, f s).

(** [try: m  except <class>: h] where [handles] decides the class. *)
Definition try_except {S A} (m : M S A) (handles : exn -> bool) (h : M S A)
  : M S A :=
  fun s =>
    match m s with
    | (inr a, s') => (inr a, s')
    | (inl e, s') => if handles e then h s' else (inl e, s')
    end.

(** [try: m  finally: h]: [h] runs on every way out of [m]; an exception of
    [h] replaces the outcome of [m]. *)
Definition try_finally {S A} (m : M S A) (h : M S unit) : M S A :=
  fun s =>
    match m s with
    | (r, s') =>
        match h s' with
        | (inr _, s'') => (r, s'')
        | (inl e, s'') => (inl e, s'')
        end
    end.

Declare Scope monad_scope.
Delimit Scope monad_scope with monad.
Notation "x <- m ;; k" := (bind m (fun x => k))
  (at level 100, m at next level, right associativity) : monad_scope.
Notation "m ;;; k" := (bind m (fun _ => k))
  (at level 100, k at level 200, right associativity) : monad_scope.
Open Scope monad_scope.

(** A comprehension [[x for x in l if p(x)]] whose test has effects: the
    tests run in order, and the first exception ends the comprehension. *)
Fixpoint filterM {S A} (p : A -> M S bool) (l : list A) : M S (list A) :=
  match l with
  | [] => ret []
  | x :: xs =>
      b <- p x ;;
      r <- filterM p xs ;;
      ret (if b then x :: r else r)
  end.

(** [for x in l: body(x)] *)
Fixpoint forM_ {S A} (l : list A) (body : A -> M S unit) : M S unit :=
  match l with
  | [] => ret tt
  | x :: xs => body x ;;; forM_ xs body
  end.

(** ** The platform *)

(** What the module reads from [os], [sys] and [platform]. *)
Record Env : Type := {
  os_name : string;               (* os.name *)
  sys_platform : string;          (* sys.platform *)
  python_implementation : string  (* platform.python_implementation() *)
}.

(** ** The working directory *)

(** Files by name, with their text.  Opening a file for writing creates or
    truncates it; reading or unlinking a name that is absent raises
    [FileNotFoundError]. *)
Abbreviation FS := (gmap string string).

(** [open(path, "w")] followed by [write(content)] and the close at the end
    of the [with] block are modelled by the two steps below. *)
Definition open_w (path : string) : M FS string :=
  fun fs => (inr path, <[path := EmptyString]> fs).

Definition file_write (path content : string) : M FS unit :=
  fun fs => (inr tt, alter (fun old => old +:+ content) path fs).

(** [io.open(path, encoding="utf-8").read()] *)
Definition read_file (path : string) : M FS string :=
  fun fs =>
    match fs !! path with
    | Some text => (inr text, fs)
    | None => (inl FileNotFoundError, fs)
    end.

(** [os.unlink(path)] *)
Definition os_unlink (path : string) : M FS unit :=
  fun fs =>
    match fs !! path with
    | Some _ => (inr tt, delete path fs)
    | None => (inl FileNotFoundError, fs)
    end.

(** ** The compiler and the builder *)

(** A preprocessor macro [(name, value)] as distutils takes them. *)
Inductive macro_value : Type :=
| MInt (z : Z)
| MStr (s : string)
| MNone.

Abbreviation macro := (string * macro_value)%type.

(** The distutils compiler object of the builder: [compile(sources,
    output_dir)] works on the files and may raise anything. *)
Record Compiler : Type := {
  compile : list string -> string -> M FS unit
}.

(** [self.compiler.announce(msg, level)] only writes to the build log. *)
Definition announce (c : Compiler) (msg : string) (level : Z) : M FS unit :=
  ret tt.

(** The part of a [build_ext_twisted] instance that a condition can look at:
    its macro list and its compiler. *)
Record Builder : Type := {
  define_macros : list macro;
  compiler : Compiler
}.

(** [build_ext_twisted._remove_conftest] *)
Definition _remove_conftest (self : Builder) : M FS unit :=
  forM_ ["conftest.c"; "conftest.o"; "conftest.obj"]
    (fun filename =>
       try_except (os_unlink filename) is_EnvironmentError (ret tt)).

(** [build_ext_twisted._compile_helper].  The inner [try] either goes on
    ([None]) or leaves the function with a value ([Some]), here [False]. *)
Definition _compile_helper (self : Builder) (content : string) : M FS bool :=
  conftest <- open_w "conftest.c" ;;
  try_finally
    (file_write conftest content ;;;
     returned <-
       try_except
         (compile (compiler self) ["conftest.c"] EmptyString ;;; ret None)
         is_CompileError
         (ret (Some false)) ;;
     match returned with
     | Some value => ret value
     | None => ret true
     end)
    (_remove_conftest self).

(** [build_ext_twisted._check_header] *)
Definition _check_header (self : Builder) (header_name : string) : M FS bool :=
  announce (compiler self) ("checking for " +:+ header_name +:+ " ...") 0 ;;;
  _compile_helper self ("#include <" +:+ header_name +:+ ">" +:+ String "010" EmptyString).

(** ** Extensions *)

(** Objects passed to the constructor of an extension. *)
Inductive pyobj : Type :=
| PStr (s : string)
| PStrs (l : list string)
| PMacros (r : positive)            (* a list of macros, by reference *)
| PCallable (f : Builder -> M FS bool)
| PNone.

(** The list objects that extensions hold in [define_macros]: a list lives
    at a reference, and two extensions built from one list share it. *)
Abbreviation Heap := (gmap positive (list macro)).

(** [list()]: a new, empty list object. *)
Definition new_list : M Heap positive :=
  fun h => let r := fresh (dom h) in (inr r, <[r := []]> h).

(** [l.extend(items)] on the list at [r]. *)
Definition list_extend (r : positive) (items : list macro) : Heap -> Heap :=
  alter (fun l => l ++ items) r.

(** The attributes of a setuptools [Extension] that the module uses. *)
Record Extension : Type := {
  ext_name : string;
  ext_sources : list string;
  ext_libraries : list string;
  ext_define_macros : positive
}.

(** A [ConditionalExtension] is an [Extension] with a [condition]. *)
Record ConditionalExtension : Type := {
  base : Extension;
  condition : pyobj
}.

(** [f(builder)] for the object stored in [condition]. *)
Definition call (f : pyobj) (builder : Builder) : M FS bool :=
  match f with
  | PCallable c => c builder
  | _ => raise TypeError
  end.

(** [ConditionalExtension.__init__], over the initialiser of the base
    class. *)
Definition ConditionalExtension___init__
    (Extension___init__ : list pyobj -> gmap string pyobj -> M Heap Extension)
    (args : list pyobj) (kwargs : gmap string pyobj)
  : M Heap ConditionalExtension :=
  let condition :=
    default (PCallable (fun builder => ret true)) (kwargs !! "condition") in
  let kwargs := delete "condition" kwargs in
  e <- Extension___init__ args kwargs ;;
  ret {| base := e; condition := condition |}.

(** Positional arguments take the names of the formal parameters in order;
    a parameter given twice, or an argument too many, is a [TypeError]. *)
Fixpoint bind_positional (formals : list string) (args : list pyobj)
    (kwargs : gmap string pyobj) : option (gmap string pyobj) :=
  match args, formals with
  | [], _ => Some kwargs
  | a :: args', f :: formals' =>
      match kwargs !! f with
      | Some _ => None
      | None => bind_positional formals' args' (<[f := a]> kwargs)
      end
  | _ :: _, [] => None
  end.

(** The initialiser of setuptools' [Extension], for the parameters the
    module passes: [name] must be a string and [sources] a list of strings,
    [libraries] defaults to an empty list, and [define_macros or []] keeps
    a non-empty list that was passed, the list object itself, and makes a
    new list otherwise. *)
Definition Extension___init__ (args : list pyobj) (kwargs : gmap string pyobj)
  : M Heap Extension :=
  match bind_positional
          ["name"; "sources"; "include_dirs"; "define_macros"; "undef_macros";
           "library_dirs"; "libraries"; "runtime_library_dirs";
           "extra_objects"; "extra_compile_args"; "extra_link_args";
           "export_symbols"; "swig_opts"; "depends"; "language"; "optional"]
          args kwargs with
  | None => raise TypeError
  | Some kw =>
      match kw !! "name", kw !! "sources" with
      | None, _ | _, None => raise TypeError
      | Some (PStr name), Some (PStrs sources) =>
          let libraries :=
            match kw !! "libraries" with
            | Some (PStrs l) => l
            | _ => []
            end in
          r <- (fun h =>
                  match kw !! "define_macros" with
                  | Some (PMacros r) =>
                      match h !! r with
                      | Some (_ :: _) => (inr r, h)
                      | _ => new_list h
                      end
                  | _ => new_list h
                  end) ;;
          ret {| ext_name := name; ext_sources := sources;
                 ext_libraries := libraries; ext_define_macros := r |}
      | Some _, Some _ => raise AssertionError
      end
  end.

(** [_checkCPython] *)
Definition _checkCPython (platform : Env) : bool :=
  python_implementation platform =? "CPython".

(** [_isCPython = _checkCPython()], evaluated when the module is loaded. *)
Definition _isCPython (env : Env) : bool := _checkCPython env.

(** Python's [a and b] on booleans. *)
Definition py_and (a b : bool) : bool := if a then b else a.

(** The statements that build [_EXTENSIONS], run when the module is
    loaded. *)
Definition make_EXTENSIONS (env : Env) : M Heap (list ConditionalExtension) :=
  raiser <-
    ConditionalExtension___init__ Extension___init__
      [PStr "twisted.test.raiser"]
      (<["sources" := PStrs ["src/twisted/test/raiser.c"]]>
       (<["condition" := PCallable (fun _ => ret (_isCPython env))]> ∅)) ;;
  iocpsupport <-
    ConditionalExtension___init__ Extension___init__
      [PStr "twisted.internet.iocpreactor.iocpsupport"]
      (<["sources" :=
           PStrs ["src/twisted/internet/iocpreactor/iocpsupport/iocpsupport.c";
                  "src/twisted/internet/iocpreactor/iocpsupport/winsock_pointers.c"]]>
       (<["libraries" := PStrs ["ws2_32"]]>
        (<["condition" :=
             PCallable (fun _ =>
               ret (py_and (_isCPython env) (sys_platform env =? "win32")))]>
         ∅))) ;;
  ret [raiser; iocpsupport].

(** The two extensions as the statements above leave them, with their
    macro lists at references 1 and 2. *)
Definition raiser (env : Env) : ConditionalExtension :=
  {| base := {| ext_name := "twisted.test.raiser";
                ext_sources := ["src/twisted/test/raiser.c"];
                ext_libraries := [];
                ext_define_macros := 1%positive |};
     condition := PCallable (fun _ => ret (_isCPython env)) |}.

Definition iocpsupport (env : Env) : ConditionalExtension :=
  {| base := {| ext_name := "twisted.internet.iocpreactor.iocpsupport";
                ext_sources :=
                  ["src/twisted/internet/iocpreactor/iocpsupport/iocpsupport.c";
                   "src/twisted/internet/iocpreactor/iocpsupport/winsock_pointers.c"];
                ext_libraries := ["ws2_32"];
                ext_define_macros := 2%positive |};
     condition :=
       PCallable (fun _ =>
         ret (py_and (_isCPython env) (sys_platform env =? "win32"))) |}.

Definition _EXTENSIONS (env : Env) : list ConditionalExtension :=
  [raiser env; iocpsupport env].

Definition _EXTENSIONS_heap : Heap :=
  <[2%positive := []]> (<[1%positive := []]> ∅).

(** ** The build step *)

(** A [build_ext_twisted] instance: what conditions see of it, the
    [extensions] that distutils will build, and the [conditionalExtensions]
    that the subclass made by [getSetupArgs] declares. *)
Record build_ext_twisted : Type := {
  builder : Builder;
  extensions : list ConditionalExtension;
  conditionalExtensions : list ConditionalExtension
}.

(** The state a build step runs in. *)
Record State : Type := {
  self : build_ext_twisted;
  files : FS;
  lists : Heap
}.

Definition with_files (st : State) (fs : FS) : State :=
  {| self := self st; files := fs; lists := lists st |}.

(** Run a computation on the files. *)
Definition on_files {A} (m : M FS A) : M State A :=
  fun st =>
    match m (files st) with
    | (r, fs) => (r, with_files st fs)
    end.

(** [self.define_macros = l] *)
Definition set_define_macros (l : list macro) : M State unit :=
  modify (fun st =>
    {| self := {| builder := {| define_macros := l;
                                compiler := compiler (builder (self st)) |};
                  extensions := extensions (self st);
                  conditionalExtensions := conditionalExtensions (self st) |};
       files := files st; lists := lists st |}).

(** [self.define_macros.append(m)] *)
Definition append_define_macro (m : macro) : M State unit :=
  st <- get ;;
  set_define_macros (define_macros (builder (self st)) ++ [m]).

(** [self.extensions = l] *)
Definition set_extensions (l : list ConditionalExtension) : M State unit :=
  modify (fun st =>
    {| self := {| builder := builder (self st);
                  extensions := l;
                  conditionalExtensions := conditionalExtensions (self st) |};
       files := files st; lists := lists st |}).

(** [ext.define_macros.extend(items)] *)
Definition extend_define_macros (ext : ConditionalExtension)
    (items : list macro) : M State unit :=
  modify (fun st =>
    {| self := self st; files := files st;
       lists := list_extend (ext_define_macros (base ext)) items (lists st) |}).

(** [build_ext_twisted.prepare_extensions] *)
Definition prepare_extensions (env : Env) : M State unit :=
  (if os_name env =? "nt"
   then set_define_macros [("WIN32", MInt 1)]
   else set_define_macros []) ;;;
  (if String.prefix "sunos" (sys_platform env)
   then append_define_macro ("_XOPEN_SOURCE", MInt 1) ;;;
        append_define_macro ("_XOPEN_SOURCE_EXTENDED", MInt 1)
   else ret tt) ;;;
  st <- get ;;
  selected <-
    filterM (fun x => on_files (call (condition x) (builder (self st))))
      (conditionalExtensions (self st)) ;;
  set_extensions selected ;;;
  st <- get ;;
  forM_ (extensions (self st))
    (fun ext =>
       st <- get ;;
       extend_define_macros ext (define_macros (builder (self st)))).

(** The [build_extensions] that [build_ext_twisted] inherits from distutils,
    as far as the module relies on it: it compiles the sources of the
    extensions in [self.extensions], in order, into the build directory, and
    an error of the compiler ends the build (distutils goes on after a
    failure only for an extension that is declared [optional], which this
    module never does).  The code of distutils is not part of the module,
    and this stands for it without what the module does not touch:
    distutils skips an extension whose output is newer than its sources,
    hands the macros and directories of the extension to the compiler,
    compiles into [build_temp], and links the objects after a compilation
    that returned.  The statements below use of it that it runs after
    [prepare_extensions] on the state that this leaves, that it does nothing
    for an empty [self.extensions], and that an error of the compiler on
    sources that are compiled ends the build. *)
Definition build_ext_build_extensions : M State unit :=
  st <- get ;;
  forM_ (extensions (self st))
    (fun ext =>
       on_files (compile (compiler (builder (self st)))
                   (ext_sources (base ext)) "build")).

(** [build_ext_twisted.build_extensions] *)
Definition build_extensions (env : Env) : M State unit :=
  prepare_extensions env ;;;
  build_ext_build_extensions.

(** The macros that [prepare_extensions] puts in [self.define_macros]. *)
Definition platform_macros (env : Env) : list macro :=
  (if os_name env =? "nt" then [("WIN32", MInt 1)] else []) ++
  (if String.prefix "sunos" (sys_platform env)
   then [("_XOPEN_SOURCE", MInt 1); ("_XOPEN_SOURCE_EXTENDED", MInt 1)]
   else []).

(** The elements of [l] at the positions where [outcomes] is true. *)
Fixpoint select {A} (l : list A) (outcomes : list bool) : list A :=
  match l, outcomes with
  | x :: xs, b :: bs => if b then x :: select xs bs else select xs bs
  | _, _ => []
  end.

(** The conditions of [l] are called on [b] one after the other, starting
    with the files [fs]; each returns, with the given outcome, and the files
    end as [fs']. *)
Inductive conditions_return (b : Builder)
  : list ConditionalExtension -> FS -> list bool -> FS -> Prop :=
| conditions_nil fs :
    conditions_return b [] fs [] fs
| conditions_cons x xs fs v fs1 vs fs' :
    call (condition x) b fs = (inr v, fs1) ->
    conditions_return b xs fs1 vs fs' ->
    conditions_return b (x :: xs) fs (v :: vs) fs'.

(** The macro lists after every extension of [sel] got [items]. *)
Definition extend_all (items : list macro) (sel : list ConditionalExtension)
    (h : Heap) : Heap :=
  foldl (fun h ext => list_extend (ext_define_macros (base ext)) items h) h sel.

(** ** Regular expressions

    The fragment of Python's [re] that the module uses, with the matching
    order of its backtracking matcher: a greedy repetition first takes all
    it can and gives back one character at a time.  Text is a list of
    characters with codes 0 to 255. *)
Module Re.

(** Patterns of one character: [x], [[^x]] and [\s]. *)
Inductive charset : Type :=
| Char (x : ascii)
| NotChar (x : ascii)
| Space.

Inductive regex : Type :=
| One (c : charset)
| Plus (c : charset)       (* c+ *)
| Opt (r : regex)          (* r? *)
| Seq (r1 r2 : regex)
| Group (r : regex)        (* (r) *)
| NotAhead (r : regex)     (* (?!r) *)
| Empty.

(** [r1 r2 ... rn] *)
Definition seq (rs : list regex) : regex := fold_right Seq Empty rs.

(** A pattern without special characters. *)
Definition literal (s : string) : regex :=
  seq (map (fun a => One (Char a)) (list_ascii_of_string s)).

Definition between (lo hi : N) (a : ascii) : bool :=
  ((lo <=? N_of_ascii a) && (N_of_ascii a <=? hi))%N.

(** The lower case of a character, as [re.IGNORECASE] compares them. *)
Definition lower (a : ascii) : ascii :=
  if between 65 90 a || between 192 214 a || between 216 222 a
  then ascii_of_N (N_of_ascii a + 32)
  else a.

(** [\s] on text: the characters for which [str.isspace] holds. *)
Definition is_space (a : ascii) : bool :=
  between 9 13 a || between 28 32 a
  || (N_of_ascii a =? 133)%N || (N_of_ascii a =? 160)%N.

Definition same_char (ignorecase : bool) (x a : ascii) : bool :=
  if ignorecase then Ascii.eqb (lower a) (lower x) else Ascii.eqb a x.

Definition in_charset (ignorecase : bool) (c : charset) (a : ascii) : bool :=
  match c with
  | Char x => same_char ignorecase x a
  | NotChar x => negb (same_char ignorecase x a)
  | Space => is_space a
  end.

(** One or more characters that satisfy [p], the longest run first, then
  the continuation [k] on what is left. *)
Fixpoint plus_loop (R : Type) (p : ascii -> bool) (s : list ascii)
    (k : list ascii -> option R) : option R :=
  match s with
  | a :: s' =>
      if p a
      then match plus_loop R p s' k with
           | Some r => Some r
           | None => k s'
           end
      else None
  | [] => None
  end.

(** Match [r] at the head of [s] and continue with [k] on the rest of the
  text and the groups closed so far; [None] sends the matcher back to the
  last choice. *)
Fixpoint run (ignorecase : bool) (r : regex) (R : Type) (s : list ascii)
    (groups : list (list ascii))
    (k : list ascii -> list (list ascii) -> option R) {struct r} : option R :=
  match r with
  | One c =>
      match s with
      | a :: s' => if in_charset ignorecase c a then k s' groups else None
      | [] => None
      end
  | Plus c => plus_loop R (in_charset ignorecase c) s (fun s' => k s' groups)
  | Opt r1 =>
      match run ignorecase r1 R s groups k with
      | Some x => Some x
      | None => k s groups
      end
  | Seq r1 r2 =>
      run ignorecase r1 R s groups
        (fun s' groups' => run ignorecase r2 R s' groups' k)
  | Group r1 =>
      run ignorecase r1 R s groups
        (fun s' groups' =>
           k s' (groups' ++ [take (length s - length s') s]))
  | NotAhead r1 =>
      match run ignorecase r1 unit s groups (fun _ _ => Some tt) with
      | Some _ => None
      | None => k s groups
      end
  | Empty => k s groups
  end.

(** A match of [r] at the head of [s]: what follows the match, and the
  groups. *)
Definition match_at (ignorecase : bool) (r : regex) (s : list ascii)
  : option (list ascii * list (list ascii)) :=
  run ignorecase r _ s [] (fun s' groups => Some (s', groups)).

(** Replacement templates: text and references [\n] to groups. *)
Inductive piece : Type :=
| Text (s : string)
| Ref (n : nat).

Definition expand (template : list piece) (groups : list (list ascii))
  : list ascii :=
  concat (map (fun p =>
                 match p with
                 | Text s => list_ascii_of_string s
                 | Ref n => nth (n - 1) groups []
                 end) template).

(** [re.sub]: the text is scanned from the left; where the pattern matches
  the match is replaced and the scan goes on behind it, elsewhere the
  character is kept.  [skip] counts the characters of the last match that
  are still to pass. *)
Fixpoint sub_from (ignorecase : bool) (r : regex) (template : list piece)
    (skip : nat) (s : list ascii) : list ascii :=
  match s with
  | [] =>
      match skip, match_at ignorecase r [] with
      | O, Some (_, groups) => expand template groups
      | _, _ => []
      end
  | a :: s' =>
      match skip with
      | S n => sub_from ignorecase r template n s'
      | O =>
          match match_at ignorecase r s with
          | Some (rest, groups) =>
              if (length s <=? length rest)%nat
              then expand template groups
                     ++ a :: sub_from ignorecase r template 0 s'
              else expand template groups
                     ++ sub_from ignorecase r template
                          (length s' - length rest) s'
          | None => a :: sub_from ignorecase r template 0 s'
          end
      end
  end.

Definition sub (ignorecase : bool) (r : regex) (template : list piece)
    (s : string) : string :=
  string_of_list_ascii
    (sub_from ignorecase r template 0 (list_ascii_of_string s)).

End Re.

(** ** The long description *)

(** The part [https?://] of the pattern below. *)
Definition absolute_url : Re.regex :=
  Re.seq [Re.literal "http"; Re.Opt (Re.literal "s"); Re.literal "://"].

(** The pattern [`([^`]+)\s+<(?!https?://)([^>]+)>`_] *)
Definition readme_link : Re.regex :=
  Re.seq
    [ Re.literal "`";
      Re.Group (Re.Plus (Re.NotChar "`"));
      Re.Plus Re.Space;
      Re.literal "<";
      Re.NotAhead absolute_url;
      Re.Group (Re.Plus (Re.NotChar ">"));
      Re.literal ">`_" ].

(** The template [`\1 <https://github.com/twisted/twisted/blob/trunk/\2>`_] *)
Definition github_link : list Re.piece :=
  [ Re.Text "`"; Re.Ref 1;
    Re.Text " <https://github.com/twisted/twisted/blob/trunk/"; Re.Ref 2;
    Re.Text ">`_" ].

(** [_longDescriptionFromReadme] *)
Definition _longDescriptionFromReadme (readme : string) : M FS string :=
  readmeRst <- read_file readme ;;
  ret (Re.sub true readme_link github_link readmeRst).

(** *** Readme texts

    A readme as a sequence of links [`label <target>`_] and of other
    characters, to state what [_longDescriptionFromReadme] does to the
    links. *)
Inductive item : Type :=
| Plain (a : ascii)
| Link (label target : string).

Definition render_item (i : item) : string :=
  match i with
  | Plain a => String a EmptyString
  | Link label target => "`" +:+ label +:+ " <" +:+ target +:+ ">`_"
  end.

Definition render (doc : list item) : string :=
  fold_right (fun i text => render_item i +:+ text) EmptyString doc.

Definition has (a : ascii) (s : string) : bool :=
  existsb (Ascii.eqb a) (list_ascii_of_string s).

Definition is_empty (s : string) : bool :=
  match s with
  | EmptyString => true
  | String _ _ => false
  end.

(** The readme texts that the statement covers: no [<] outside links; a
    label is not empty and has no backquote and no [<]; a target is not
    empty and has no [<] and no [>]. *)
Definition well_formed (i : item) : bool :=
  match i with
  | Plain a => negb (Ascii.eqb a "<")
  | Link label target =>
      negb (is_empty label) && negb (has "`" label) && negb (has "<" label)
      && negb (is_empty target) && negb (has "<" target)
      && negb (has ">" target)
  end.

(** [text] begins with [prefix], letter case ignored. *)
Fixpoint starts_with_ignoring_case (prefix text : list ascii) : bool :=
  match prefix, text with
  | [], _ => true
  | x :: prefix', a :: text' =>
      Re.same_char true x a && starts_with_ignoring_case prefix' text'
  | _ :: _, [] => false
  end.

Definition is_absolute (target : string) : bool :=
  starts_with_ignoring_case (list_ascii_of_string "http://")
    (list_ascii_of_string target)
  || starts_with_ignoring_case (list_ascii_of_string "https://")
       (list_ascii_of_string target).

(** A link to a file of the repository becomes a link to GitHub. *)
Definition github_item (i : item) : item :=
  match i with
  | Plain a => Plain a
  | Link label target =>
      if is_absolute target
      then Link label target
      else Link label
             ("https://github.com/twisted/twisted/blob/trunk/" +:+ target)
  end.

(** ** Optional dependencies *)

(** [d[k]] for a dictionary of lists and a key that it has. *)
Definition getitem (d : gmap string (list string)) (k : string) : list string :=
  d !!! k.

(** A dictionary display or [dict(...)] call: later items win. *)
Definition dict {V} (items : list (string * V)) : gmap string V :=
  foldl (fun d kv => <[kv.1 := kv.2]> d) ∅ items.

(** [s] between double quotes. *)
Definition quoted (s : string) : string :=
  String "034" (s +:+ String "034" EmptyString).

Definition _dev : list string :=
  [ "pyflakes >= 1.0.0";
    "twisted-dev-tools >= 0.0.2";
    "python-subunit";
    "towncrier >= 17.4.0";
    "twistedchecker >= 0.7.2";
    "alabaster~=0.7.12";
    "commonmark~=0.9.1";
    "docutils~=0.16.0";
    "mock~=4.0";
    "pillow~=7.2";
    "readthedocs-sphinx-ext~=2.1";
    "recommonmark~=0.6.0";
    "sphinx~=3.2";
    "sphinx-rtd-theme~=0.5.0" ].

Definition _EXTRA_OPTIONS : gmap string (list string) :=
  dict
    [ ("dev", _dev);
      ("tls", [ "pyopenssl >= 16.0.0";
                "service_identity >= 18.1.0";
                "idna >= 2.4" ]);
      ("conch", [ "pyasn1";
                  "cryptography >= 2.6";
                  "appdirs >= 1.4.0";
                  "bcrypt >= 3.0.0" ]);
      ("serial", [ "pyserial >= 3.0";
                   "pywin32 != 226; platform_system == " +:+ quoted "Windows" ]);
      ("macos", [ "pyobjc-core";
                  "pyobjc-framework-CFNetwork";
                  "pyobjc-framework-Cocoa" ]);
      ("windows", [ "pywin32 != 226" ]);
      ("http2", [ "h2 >= 3.0, < 4.0"; "priority >= 1.1.0, < 2.0" ]);
      ("contextvars", [ "contextvars >= 2.4, < 3; python_version < " +:+ quoted "3.7" ]) ].

Definition _PLATFORM_INDEPENDENT : list string :=
  getitem _EXTRA_OPTIONS "tls"
  ++ getitem _EXTRA_OPTIONS "conch"
  ++ getitem _EXTRA_OPTIONS "serial"
  ++ getitem _EXTRA_OPTIONS "http2"
  ++ getitem _EXTRA_OPTIONS "contextvars".

Definition _EXTRAS_REQUIRE : gmap string (list string) :=
  let _EXTRAS_REQUIRE :=
    dict
      [ ("dev", getitem _EXTRA_OPTIONS "dev");
        ("tls", getitem _EXTRA_OPTIONS "tls");
        ("conch", getitem _EXTRA_OPTIONS "conch");
        ("serial", getitem _EXTRA_OPTIONS "serial");
        ("http2", getitem _EXTRA_OPTIONS "http2");
        ("contextvars", getitem _EXTRA_OPTIONS "contextvars");
        ("all_non_platform", _PLATFORM_INDEPENDENT);
        ("macos_platform", getitem _EXTRA_OPTIONS "macos" ++ _PLATFORM_INDEPENDENT);
        ("windows_platform",
         getitem _EXTRA_OPTIONS "windows" ++ _PLATFORM_INDEPENDENT) ] in
  <["osx_platform" := getitem _EXTRAS_REQUIRE "macos_platform"]> _EXTRAS_REQUIRE.

(** A specifier is version-constrained when the part before the environment
    marker (which starts at [;]) has a comparison of versions: one of the
    operators [<], [<=], [>], [>=], [==], [!=], [~=]. *)
Definition is_version_operator_char (a : ascii) : bool :=
  existsb (Ascii.eqb a) (list_ascii_of_string "<>=!~").

Fixpoint before_marker (s : list ascii) : list ascii :=
  match s with
  | [] => []
  | a :: s' => if Ascii.eqb a ";" then [] else a :: before_marker s'
  end.

Definition version_constrained (spec : string) : bool :=
  existsb is_version_operator_char (before_marker (list_ascii_of_string spec)).

(** The characters of a package name. *)
Definition is_name_char (a : ascii) : bool :=
  Re.between 97 122 a || Re.between 65 90 a || Re.between 48 57 a
  || existsb (Ascii.eqb a) (list_ascii_of_string "-_.").

Fixpoint name_prefix (s : list ascii) : list ascii :=
  match s with
  | [] => []
  | a :: s' => if is_name_char a then a :: name_prefix s' else []
  end.

(** The package that a specifier names. *)
Definition package_name (spec : string) : string :=
  string_of_list_ascii (name_prefix (list_ascii_of_string spec)).

(** ** The arguments of [setup()] *)

(** The subclass of [build_ext_twisted] that [getSetupArgs] declares. *)
Record my_build_ext : Type := {
  class_conditionalExtensions : list ConditionalExtension
}.

(** The values of the keyword arguments of [setup()]. *)
#[local] Unset Elimination Schemes.
Inductive value : Type :=
| VStr (s : string)
| VBool (b : bool)
| VList (l : list value)
| VDict (d : list (string * value))
| VExtras (d : gmap string (list string))
| VExtensions (l : list ConditionalExtension)
| VClass (c : my_build_ext).
#[local] Set Elimination Schemes.

Definition strs (l : list string) : value := VList (map VStr l).

Definition STATIC_PACKAGE_METADATA : gmap string value :=
  dict
    [ ("name", VStr "Twisted");
      ("description",
       VStr "An asynchronous networking framework written in Python");
      ("author", VStr "Twisted Matrix Laboratories");
      ("author_email", VStr "twisted-python@twistedmatrix.com");
      ("maintainer", VStr "Glyph Lefkowitz");
      ("maintainer_email", VStr "glyph@twistedmatrix.com");
      ("url", VStr "https://twistedmatrix.com/");
      ("project_urls",
       VDict [ ("Documentation",
                VStr "https://twistedmatrix.com/documents/current/");
               ("Source", VStr "https://github.com/twisted/twisted");
               ("Issues", VStr "https://twistedmatrix.com/trac/report") ]);
      ("license", VStr "MIT");
      ("classifiers",
       strs [ "Programming Language :: Python :: 3";
              "Programming Language :: Python :: 3 :: Only";
              "Programming Language :: Python :: 3.5";
              "Programming Language :: Python :: 3.6";
              "Programming Language :: Python :: 3.7";
              "Programming Language :: Python :: 3.8" ]);
      ("python_requires", VStr ">=3.5");
      ("long_description_content_type", VStr "text/x-rst");
      ("install_requires",
       strs [ "zope.interface >= 4.4.2";
              "constantly >= 15.1";
              "incremental >= 16.10.1";
              "Automat >= 0.8.0";
              "hyperlink >= 17.1.1";
              "PyHamcrest >= 1.9.0";
              "attrs >= 19.2.0" ]);
      ("use_incremental", VBool true);
      ("setup_requires", strs ["incremental >= 16.10.1"]);
      ("include_package_data", VBool true);
      ("exclude_package_data",
       VDict [ (EmptyString, strs ["*.c"; "*.h"; "*.pxi"; "*.pyx"; "build.bat"]) ]);
      ("zip_safe", VBool false);
      ("package_dir", VDict [ (EmptyString, VStr "src") ]);
      ("entry_points",
       VDict
         [ ("console_scripts",
            strs [ "ckeygen = twisted.conch.scripts.ckeygen:run";
                   "cftp = twisted.conch.scripts.cftp:run";
                   "conch = twisted.conch.scripts.conch:run";
                   "mailmail = twisted.mail.scripts.mailmail:run";
                   "pyhtmlizer = twisted.scripts.htmlizer:run";
                   "tkconch = twisted.conch.scripts.tkconch:run";
                   "trial = twisted.scripts.trial:run";
                   "twist = twisted.application.twist._twist:Twist.main";
                   "twistd = twisted.scripts.twistd:run" ]) ]) ].

(** [getSetupArgs], over setuptools' [find_packages], which lists the
    packages below a directory. *)
Definition getSetupArgs (find_packages : string -> FS -> list string)
    (extensions : list ConditionalExtension) (readme : string)
  : M FS (gmap string value) :=
  let my_build_ext := {| class_conditionalExtensions := extensions |} in
  fs <- get ;;
  let packages := find_packages "src" fs in
  long_description <- _longDescriptionFromReadme readme ;;
  ret (STATIC_PACKAGE_METADATA
       ∪ dict [ ("packages", strs packages);
                ("long_description", VStr long_description);
                ("ext_modules", VExtensions extensions);
                ("cmdclass", VDict [ ("build_ext", VClass my_build_ext) ]);
                ("extras_require", VExtras _EXTRAS_REQUIRE) ]).

(** ** Notions used in the statements and proofs *)

(** The builder that the conditions are called on: the one of [st] after
    [prepare_extensions] has set its macros. *)
Definition platform_builder (env : Env) (st : State) : Builder :=
  {| define_macros := platform_macros env;
     compiler := compiler (builder (self st)) |}.

(** The state after a run of [prepare_extensions] that selected [sel] and
    left the files as [fs]. *)
Definition prepared (env : Env) (st : State)
    (sel : list ConditionalExtension) (fs : FS) : State :=
  {| self := {| builder := platform_builder env st;
                extensions := sel;
                conditionalExtensions := conditionalExtensions (self st) |};
     files := fs;
     lists := extend_all (platform_macros env) sel (lists st) |}.

(** The state after a run of [prepare_extensions] that a condition ended
    with an exception. *)
Definition interrupted (env : Env) (st : State) (fs : FS) : State :=
  {| self := {| builder := platform_builder env st;
                extensions := extensions (self st);
                conditionalExtensions := conditionalExtensions (self st) |};
     files := fs;
     lists := lists st |}.

(** The extensions that a run of [prepare_extensions] selects: none when it
    raises. *)
Definition selected_by (env : Env) (st : State) : list ConditionalExtension :=
  match prepare_extensions env st with
  | (inr _, st') => extensions (self st')
  | (inl _, _) => []
  end.

(** How many extensions of [sel] have the list at [r] as their
    [define_macros]. *)
Definition references (r : positive) (sel : list ConditionalExtension) : nat :=
  length (filter (fun x => ext_define_macros (base x) = r) sel).

(** [items], [n] times. *)
Fixpoint copies (n : nat) (items : list macro) : list macro :=
  match n with
  | O => []
  | S n' => items ++ copies n' items
  end.

(** The files without the three that [_remove_conftest] unlinks. *)
Definition without_conftest (fs : FS) : FS :=
  delete "conftest.obj" (delete "conftest.o" (delete "conftest.c" fs)).

(** What [_compile_helper] makes of the outcome of the compiler. *)
Definition probe_outcome (r : exn + unit) : exn + bool :=
  match r with
  | inr _ => inr true
  | inl e => if is_CompileError e then inr false else inl e
  end.

(** The specifiers of [_EXTRAS_REQUIRE] without a version. *)
Definition unconstrained : list string :=
  ["python-subunit"; "pyasn1"; "pyobjc-core"; "pyobjc-framework-CFNetwork";
   "pyobjc-framework-Cocoa"].

(** A specifier names a package, and has a version constraint unless it is
    one of [unconstrained]. *)
Definition specifier_ok (spec : string) : bool :=
  negb (is_empty (package_name spec))
  && Bool.eqb (negb (version_constrained spec))
       (existsb (String.eqb spec) unconstrained).

Abbreviation chars := list_ascii_of_string.
Abbreviation not_backquote := (Re.in_charset true (Re.NotChar "`")).
Abbreviation not_gt := (Re.in_charset true (Re.NotChar ">")).
Abbreviation space := (Re.in_charset true Re.Space).
Abbreviation Match := (list ascii * list (list ascii))%type.
Abbreviation resub := (Re.sub_from true readme_link github_link).

(** No [<] before the first backquote. *)
Fixpoint quiet (s : list ascii) : bool :=
  match s with
  | [] => true
  | a :: s' =>
      if Ascii.eqb a "`" then true else negb (Ascii.eqb a "<") && quiet s'
  end.

Definition lt_headed (s : list ascii) : bool :=
  match s with
  | a :: _ => Ascii.eqb a "<"
  | [] => false
  end.

(** What [readme_link] does behind [\s+], in a match that began with [s1]
    and whose first group ended where [s2] begins. *)
Definition link_tail (s1 s2 : list ascii) : list ascii -> option Match :=
  fun s3 =>
    match s3 with
    | [] => None
    | a :: s4 =>
        if Re.in_charset true (Re.Char "<") a
        then match Re.run true absolute_url unit s4
                     ([] ++ [take (length s1 - length s2) s1])
                     (fun _ _ => Some tt) with
             | Some _ => None
             | None =>
                 Re.plus_loop Match not_gt s4
                   (fun s5 =>
                      Re.run true (Re.literal ">`_") Match s5
                        (([] ++ [take (length s1 - length s2) s1])
                           ++ [take (length s4 - length s5) s4])
                        (fun s6 groups => Some (s6, groups)))
             end
        else None
    end.

(** [s] begins with [http://] or [https://], letter case ignored. *)
Definition absolute (s : list ascii) : bool :=
  starts_with_ignoring_case (chars "http://") s
  || starts_with_ignoring_case (chars "https://") s.

(** [define_macros] of [x], as a list. *)
Definition define_macros_in (st : State) (x : ConditionalExtension)
  : option (list macro) :=
  lists st !! ext_define_macros (base x).

Definition names (l : list ConditionalExtension) : list string :=
  map (fun x => ext_name (base x)) l.

(** The names that [_remove_conftest] unlinks. *)
Definition conftest_files : list string :=
  ["conftest.c"; "conftest.o"; "conftest.obj"].

(** The conditions of [l] are called on [b] one after the other, starting
    with the files [fs], until one raises [e] and leaves the files as
    [fs']. *)
Inductive conditions_raise (b : Builder)
  : list ConditionalExtension -> FS -> exn -> FS -> Prop :=
| raises_first x xs fs e fs' :
    call (condition x) b fs = (inl e, fs') ->
    conditions_raise b (x :: xs) fs e fs'
| raises_later x xs fs v fs1 e fs' :
    call (condition x) b fs = (inr v, fs1) ->
    conditions_raise b xs fs1 e fs' ->
    conditions_raise b (x :: xs) fs e fs'.

(** [st] with other [self.extensions]. *)
Definition with_extensions (st : State) (l : list ConditionalExtension)
  : State :=
  {| self := {| builder := builder (self st);
                extensions := l;
                conditionalExtensions := conditionalExtensions (self st) |};
     files := files st; lists := lists st |}.

(** The program that [_check_header] compiles. *)
Definition include_line (header_name : string) : string :=
  "#include <" +:+ header_name +:+ ">" +:+ String "010" EmptyString.

(** An extension that is built when a header is found:
    [condition=lambda builder: builder._check_header(header)]. *)
Definition header_extension (eh : Extension * string) : ConditionalExtension :=
  {| base := eh.1;
     condition := PCallable (fun b => _check_header b eh.2) |}.

(** The address that the template puts before a target. *)
Definition trunk : string := "https://github.com/twisted/twisted/blob/trunk/".

(** [t] is [s] in which some links [`label <target>`_] whose target is not
    absolute, with one character of white space before the [<], have got
    [trunk] before their target and a blank before the [<]; every other
    character is as it was. *)
Inductive rewritten : list ascii -> list ascii -> Prop :=
| rewritten_nil : rewritten [] []
| rewritten_keep a s t :
    rewritten s t -> rewritten (a :: s) (a :: t)
| rewritten_link label w target s t :
    label <> [] -> Forall (fun a => a <> "`"%char) label ->
    Re.is_space w = true ->
    target <> [] -> Forall (fun a => a <> ">"%char) target ->
    absolute target = false ->
    rewritten s t ->
    rewritten ("`"%char :: label ++ w :: "<"%char :: target ++ chars ">`_" ++ s)
      ("`"%char :: label ++ " "%char :: "<"%char :: chars trunk ++ target
         ++ chars ">`_" ++ t).

(** The targets of the links of a readme. *)
Definition targets (doc : list item) : list string :=
  omap (fun i => match i with Link _ target => Some target | Plain _ => None end)
    doc.

(** The extensions of the module that a run of [prepare_extensions]
    selects. *)
Definition EXTENSIONS_selection (env : Env) : list ConditionalExtension :=
  (if _isCPython env then [raiser env] else [])
  ++ (if py_and (_isCPython env) (sys_platform env =? "win32")
      then [iocpsupport env] else []).

(** ** Sample platforms and builds *)

Definition linux_cpython : Env :=
  {| os_name := "posix"; sys_platform := "linux";
     python_implementation := "CPython" |}.

Definition linux_pypy : Env :=
  {| os_name := "posix"; sys_platform := "linux";
     python_implementation := "PyPy" |}.

Definition windows_cpython : Env :=
  {| os_name := "nt"; sys_platform := "win32";
     python_implementation := "CPython" |}.

(** A compiler that fails on every source. *)
Definition broken_compiler : Compiler :=
  {| compile := fun _ _ => raise CompileError |}.

(** A compiler that cannot be run. *)
Definition missing_compiler : Compiler :=
  {| compile := fun _ _ => raise DistutilsError |}.

(** A compiler that succeeds and writes nothing. *)
Definition idle_compiler : Compiler :=
  {| compile := fun _ _ => ret tt |}.

(** A build of the extensions of the module, before its first step. *)
Definition initial (env : Env) (c : Compiler) : State :=
  {| self := {| builder := {| define_macros := []; compiler := c |};
                extensions := _EXTENSIONS env;
                conditionalExtensions := _EXTENSIONS env |};
     files := ∅;
     lists := _EXTENSIONS_heap |}.

Definition windows_build : State := initial windows_cpython idle_compiler.

Definition windows_prepared : State :=
  (prepare_extensions windows_cpython windows_build).2.

(** Two extensions made from one list of macros, as in
    [m = [("NDEBUG", None)]; a = ConditionalExtension("a", sources=["a.c"],
    define_macros=m); b = ConditionalExtension("b", sources=["b.c"],
    define_macros=m, condition=lambda builder: False)]. *)
Definition make_shared : M Heap (list ConditionalExtension) :=
  a <- ConditionalExtension___init__ Extension___init__
         [PStr "a"]
         (<["sources" := PStrs ["a.c"]]>
          (<["define_macros" := PMacros 1%positive]> ∅)) ;;
  b <- ConditionalExtension___init__ Extension___init__
         [PStr "b"]
         (<["sources" := PStrs ["b.c"]]>
          (<["define_macros" := PMacros 1%positive]>
           (<["condition" := PCallable (fun _ => ret false)]> ∅))) ;;
  ret [a; b].

Definition shared_heap : Heap := <[1%positive := [("NDEBUG", MNone)]]> ∅.

Definition shared_build : State :=
  {| self :=
       {| builder := {| define_macros := []; compiler := idle_compiler |};
          extensions := [];
          conditionalExtensions :=
            match make_shared shared_heap with
            | (inr l, _) => l
            | (inl _, _) => []
            end |};
     files := ∅;
     lists := shared_heap |}.

Definition shared_prepared : State :=
  (prepare_extensions windows_cpython shared_build).2.

(** A readme with a link to a file and a link to a site. *)
Definition sample_readme : list item :=
  [ Plain "S"; Plain "e"; Plain "e"; Plain " ";
    Link "NEWS" "NEWS.rst"; Plain ","; Plain " ";
    Link "the site" "https://twistedmatrix.com/"; Plain "." ].

Definition sample_files : FS := <["README.rst" := render sample_readme]> ∅.

(** A readme whose only link has its scheme in capitals. *)
Definition capitals_readme : string := "`site <HTTP://twistedmatrix.com>`_".

Definition capitals_files : FS := <["README.rst" := capitals_readme]> ∅.

(** Setuptools finds one package. *)
Definition one_package (directory : string) (fs : FS) : list string :=
  ["twisted"].

(** A build whose only extension has a condition that cannot be called. *)
Definition uncallable_build : State :=
  {| self :=
       {| builder := {| define_macros := []; compiler := idle_compiler |};
          extensions := [];
          conditionalExtensions :=
            [ {| base := {| ext_name := "a"; ext_sources := ["a.c"];
                            ext_libraries := []; ext_define_macros := 1%positive |};
                 condition := PNone |} ] |};
     files := ∅;
     lists := <[1%positive := []]> ∅ |}.

(** A compiler that accepts the source [conftest.c] when it holds one of the
    programs of [accepted], and writes an object file then. *)
Definition probing_compiler (accepted : list string) : Compiler :=
  {| compile := fun sources output_dir =>
       fs <- get ;;
       match fs !! "conftest.c" with
       | Some content =>
           if bool_decide (content ∈ accepted)
           then modify (insert "conftest.o" "ELF")
           else raise CompileError
       | None => raise OSError
       end |}.

Definition sendmsg : Extension :=
  {| ext_name := "twisted.python._sendmsg";
     ext_sources := ["src/twisted/python/_sendmsg.c"];
     ext_libraries := []; ext_define_macros := 1%positive |}.

Definition epoll : Extension :=
  {| ext_name := "twisted.python._epoll";
     ext_sources := ["src/twisted/python/_epoll.c"];
     ext_libraries := []; ext_define_macros := 2%positive |}.

(** A build of two extensions that need a header each, where only the first
    header is installed. *)
Definition headers_build : State :=
  {| self :=
       {| builder :=
            {| define_macros := [("NDEBUG", MNone)];
               compiler := probing_compiler [include_line "sys/socket.h"] |};
          extensions := [];
          conditionalExtensions :=
            map header_extension
              [(sendmsg, "sys/socket.h"); (epoll, "sys/epoll.h")] |};
     files := <["setup.py" := "import setuptools"]> ∅;
     lists := <[2%positive := []]> (<[1%positive := []]> ∅) |}.

(** A readme with an address between angle brackets and no link. *)
Definition plain_readme : string :=
  "Twisted <twisted@example.org> is `great`.".

Definition plain_files : FS := <["README.rst" := plain_readme]> ∅.

(** * Properties *)

(** ** The probe compilation *)

Lemma unlink_quietly path (fs : FS) :
  try_except (os_unlink path) is_EnvironmentError (ret tt) fs
  = (inr tt, delete path fs).
Proof.
  unfold try_except, os_unlink.
  destruct (fs !! path) eqn:E; cbn; [reflexivity|].
  unfold ret. by rewrite delete_id.
Qed.

Lemma _remove_conftest_run self fs :
  _remove_conftest self fs = (inr tt, without_conftest fs).
Proof.
  unfold _remove_conftest, without_conftest; cbn.
  unfold bind. rewrite !unlink_quietly. reflexivity.
Qed.

Lemma without_conftest_lookup (fs : FS) :
  without_conftest fs !! "conftest.c" = None
  /\ without_conftest fs !! "conftest.o" = None
  /\ without_conftest fs !! "conftest.obj" = None.
Proof.
  unfold without_conftest. repeat split.
  - rewrite lookup_delete_ne by done. rewrite lookup_delete_ne by done.
    apply lookup_delete_eq.
  - rewrite lookup_delete_ne by done. apply lookup_delete_eq.
  - apply lookup_delete_eq.
Qed.

(** [_compile_helper] writes the program, runs the compiler on it and
    removes the three files, whatever the compiler did. *)
Lemma _compile_helper_run self content (fs : FS) :
  _compile_helper self content fs =
  let r := compile (compiler self) ["conftest.c"] EmptyString
             (<["conftest.c" := content]> fs) in
  (probe_outcome r.1, without_conftest r.2).
Proof.
  unfold _compile_helper, bind at 1, open_w, try_finally, bind at 1, file_write.
  rewrite alter_insert_eq. cbn [append].
  unfold try_except, bind, ret.
  destruct (compile _ _ _ _) as [[e|[]] fs2]; cbv zeta;
    cbn [fst snd probe_outcome].
  - destruct (is_CompileError e); rewrite _remove_conftest_run; reflexivity.
  - rewrite _remove_conftest_run; reflexivity.
Qed.

Lemma _check_header_run self header (fs : FS) :
  _check_header self header fs
  = _compile_helper self
      ("#include <" +:+ header +:+ ">" +:+ String "010" EmptyString) fs.
Proof. reflexivity. Qed.

(** C9.  For every program text, compiler and state of the files,
    [_compile_helper] returns [False] exactly when the compiler raises
    [CompileError], returns [True] exactly when the compiler returns, and
    raises [e] exactly when the compiler raises an [e] that is not a
    [CompileError]; in each of these cases [conftest.c], [conftest.o] and
    [conftest.obj] are gone when it is left. *)
Theorem compile_helper_outcome self content (fs : FS) :
  let compiled :=
    compile (compiler self) ["conftest.c"] EmptyString
      (<["conftest.c" := content]> fs) in
  let result := _compile_helper self content fs in
  (result.1 = inr false <-> compiled.1 = inl CompileError)
  /\ (result.1 = inr true <-> exists u, compiled.1 = inr u)
  /\ (forall e, result.1 = inl e <-> compiled.1 = inl e /\ e <> CompileError)
  /\ result.2 !! "conftest.c" = None
  /\ result.2 !! "conftest.o" = None
  /\ result.2 !! "conftest.obj" = None.
Proof.
  intros compiled result. subst result. rewrite _compile_helper_run. cbn zeta.
  fold compiled. cbn [fst snd].
  destruct (without_conftest_lookup compiled.2) as (Hc & Ho & Hobj).
  split; [|split; [|split; [|auto]]].
  - destruct (compiled.1) as [[]|u]; cbn; split; congruence.
  - destruct (compiled.1) as [[]|u]; cbn; split;
      try congruence; try (intros [? ?]; congruence); eauto.
  - intros e. destruct (compiled.1) as [[]|u]; cbn; split;
      try congruence; try (intros [? ?]; congruence);
      intros H; injection H as <-; split; congruence.
Qed.

(** The three outcomes, with object files left over from an earlier run. *)
Lemma _compile_helper_examples :
  let fs : FS := <["conftest.o" := "old"]> (<["setup.py" := "setup()"]> ∅) in
  let clean : FS := <["setup.py" := "setup()"]> ∅ in
  let self c := {| define_macros := []; compiler := c |} in
  _compile_helper (self idle_compiler) "int main;" fs = (inr true, clean)
  /\ _compile_helper (self broken_compiler) "int main;" fs = (inr false, clean)
  /\ _compile_helper (self missing_compiler) "int main;" fs
     = (inl DistutilsError, clean).
Proof. repeat split; vm_compute; reflexivity. Qed.

(** ** Selecting the extensions *)

Lemma filterM_cons {S A} (p : A -> M S bool) x xs (s : S) :
  filterM p (x :: xs) s =
  match p x s with
  | (inr v, s1) =>
      match filterM p xs s1 with
      | (inr r, s2) => (inr (if v then x :: r else r), s2)
      | (inl e, s2) => (inl e, s2)
      end
  | (inl e, s1) => (inl e, s1)
  end.
Proof.
  cbn [filterM]. unfold bind, ret.
  destruct (p x s) as [[e|v] s1]; [reflexivity|].
  destruct (filterM p xs s1) as [[e|r] s2]; reflexivity.
Qed.

Section Conditions.

Variable b : Builder.

Let test (x : ConditionalExtension) : M State bool :=
  on_files (call (condition x) b).

(** The comprehension over conditions that all return. *)
Lemma filterM_conditions xs fs vs fs' :
  conditions_return b xs fs vs fs' ->
  forall st, files st = fs ->
  filterM test xs st = (inr (select xs vs), with_files st fs').
Proof.
  induction 1 as [fs|x xs fs v fs1 vs fs' Hcall _ IH]; intros st Hfs.
  - subst fs. by destruct st.
  - rewrite filterM_cons. unfold test at 1, on_files. rewrite Hfs, Hcall.
    rewrite (IH (with_files st fs1) eq_refl). by destruct v.
Qed.

(** The conditions all return, or the comprehension raises. *)
Lemma filterM_cases xs : forall st,
  (exists vs fs',
      conditions_return b xs (files st) vs fs'
      /\ filterM test xs st = (inr (select xs vs), with_files st fs'))
  \/ (exists e fs',
        (forall vs fs2, ~ conditions_return b xs (files st) vs fs2)
        /\ filterM test xs st = (inl e, with_files st fs')).
Proof.
  induction xs as [|x xs IH]; intros st.
  - left. exists [], (files st). split; [constructor|]. by destruct st.
  - rewrite filterM_cons. unfold test at 1 3, on_files.
    destruct (call (condition x) b (files st)) as [[e|v] fs1] eqn:Hcall.
    + right. exists e, fs1. split; [|reflexivity].
      intros vs fs2 H. inversion H; subst. congruence.
    + destruct (IH (with_files st fs1))
        as [(vs & fs' & Hret & Hrun)|(e & fs' & Hno & Hrun)]; rewrite Hrun.
      * left. exists (v :: vs), fs'. split; [econstructor; eassumption|].
        by destruct v.
      * right. exists e, fs'. split; [|reflexivity].
        intros vs fs2 H. inversion H as [|? ? ? ? fs0 ? ? Hc Hr]; subst.
        assert (fs0 = fs1) by congruence. subst. eapply Hno. eassumption.
Qed.

End Conditions.

Lemma forM__extend items sel : forall st,
  define_macros (builder (self st)) = items ->
  forM_ sel
    (fun ext =>
       st <- get ;;
       extend_define_macros ext (define_macros (builder (self st)))) st
  = (inr tt,
     {| self := self st; files := files st;
        lists := extend_all items sel (lists st) |}).
Proof.
  induction sel as [|x xs IH]; intros st Hm; cbn.
  - destruct st; reflexivity.
  - unfold bind, get, extend_define_macros, modify. cbn.
    rewrite IH; cbn; [|assumption]. rewrite Hm. reflexivity.
Qed.

(** [prepare_extensions] sets the macros of the builder, runs the
    comprehension, and extends the lists of what it selected. *)
Lemma prepare_extensions_run env st :
  prepare_extensions env st =
  match filterM (fun x => on_files (call (condition x) (platform_builder env st)))
          (conditionalExtensions (self st)) (interrupted env st (files st)) with
  | (inr sel, st1) => (inr tt, prepared env st sel (files st1))
  | (inl e, st1) => (inl e, st1)
  end.
Proof.
  unfold prepare_extensions, prepared, interrupted, platform_builder,
    platform_macros.
  destruct (filterM_cases
    {| define_macros := platform_macros env;
       compiler := compiler (builder (self st)) |}
    (conditionalExtensions (self st)) (interrupted env st (files st)))
    as [(vs & fs' & _ & Hrun)|(e & fs' & _ & Hrun)];
  unfold interrupted, platform_builder, platform_macros in Hrun;
  destruct (os_name env =? "nt"), (String.prefix "sunos" (sys_platform env));
  cbn in *;
  unfold bind, get, set_define_macros, append_define_macro, set_extensions,
    modify, bind, get; cbn;
  rewrite Hrun; cbn; try reflexivity;
  (erewrite forM__extend; [|reflexivity]); reflexivity.
Qed.

Lemma prepare_extensions_cases env st :
  (exists vs fs',
      conditions_return (platform_builder env st)
        (conditionalExtensions (self st)) (files st) vs fs'
      /\ prepare_extensions env st
         = (inr tt,
            prepared env st (select (conditionalExtensions (self st)) vs) fs'))
  \/ (exists e fs',
        (forall vs fs2,
           ~ conditions_return (platform_builder env st)
               (conditionalExtensions (self st)) (files st) vs fs2)
        /\ prepare_extensions env st = (inl e, interrupted env st fs')).
Proof.
  rewrite prepare_extensions_run.
  destruct (filterM_cases (platform_builder env st)
              (conditionalExtensions (self st)) (interrupted env st (files st)))
    as [(vs & fs' & Hret & Hrun)|(e & fs' & Hno & Hrun)]; rewrite Hrun.
  - left. exists vs, fs'. split; [exact Hret|reflexivity].
  - right. exists e, fs'. split; [exact Hno|reflexivity].
Qed.

(** Once every condition returns, so does [prepare_extensions]. *)
Lemma prepare_extensions_returns env st outcomes fs' :
  conditions_return (platform_builder env st)
    (conditionalExtensions (self st)) (files st) outcomes fs' ->
  prepare_extensions env st
  = (inr tt,
     prepared env st (select (conditionalExtensions (self st)) outcomes) fs').
Proof.
  intros H. rewrite prepare_extensions_run.
  by rewrite (filterM_conditions _ _ _ _ _ H
                (interrupted env st (files st)) eq_refl).
Qed.

Lemma select_sublist {A} (xs : list A) : forall vs, select xs vs `sublist_of` xs.
Proof.
  induction xs as [|x xs IH]; intros [|v vs]; cbn [select];
    try apply sublist_nil_l.
  destruct v; [apply sublist_skip|apply sublist_cons]; apply IH.
Qed.

(** What is selected is what stands at a position with outcome [True]. *)
Lemma elem_of_select {A} (xs : list A) x : forall vs,
  x ∈ select xs vs <-> exists i, xs !! i = Some x /\ vs !! i = Some true.
Proof.
  induction xs as [|y xs IH]; intros [|v vs]; cbn [select].
  - rewrite elem_of_nil. split; [done|]. by intros (i & H & _).
  - rewrite elem_of_nil. split; [done|]. by intros (i & H & _).
  - rewrite elem_of_nil. split; [done|]. by intros (i & _ & H).
  - assert (Hrest : x ∈ select xs vs <->
                    exists i, (y :: xs) !! S i = Some x
                              /\ (v :: vs) !! S i = Some true) by apply IH.
    destruct v.
    + rewrite elem_of_cons, Hrest. split.
      * intros [->|(i & H1 & H2)]; [by exists 0|by exists (S i)].
      * intros ([|i] & H1 & H2); [left; cbn in H1; congruence|right; by exists i].
    + rewrite Hrest. split.
      * intros (i & H1 & H2). by exists (S i).
      * intros ([|i] & H1 & H2); [discriminate|by exists i].
Qed.

(** C1.  For every list of conditional extensions and every state of the
    builder: when the conditions, called one after the other on the builder
    with its platform macros set, return [outcomes], [prepare_extensions]
    returns, and [self.extensions], whatever it held before, holds the
    extensions of [conditionalExtensions] at the positions where the outcome
    is [True], those and no others, in their order. *)
Theorem prepare_extensions_selects env st outcomes fs' :
  conditions_return (platform_builder env st)
    (conditionalExtensions (self st)) (files st) outcomes fs' ->
  exists st',
    prepare_extensions env st = (inr tt, st')
    /\ builder (self st') = platform_builder env st
    /\ files st' = fs'
    /\ extensions (self st')
       = select (conditionalExtensions (self st)) outcomes
    /\ extensions (self st') `sublist_of` conditionalExtensions (self st)
    /\ forall x,
         x ∈ extensions (self st') <->
         exists i, conditionalExtensions (self st) !! i = Some x
                   /\ outcomes !! i = Some true.
Proof.
  intros Hret. rewrite prepare_extensions_run.
  rewrite (filterM_conditions _ _ _ _ _ Hret
             (interrupted env st (files st)) eq_refl).
  eexists. split; [reflexivity|]. cbn [prepared self builder files extensions].
  repeat split; try reflexivity.
  - apply select_sublist.
  - apply elem_of_select.
  - apply elem_of_select.
Qed.

(** On Linux and CPython [self.extensions], which held both extensions of
    the module, holds [twisted.test.raiser] alone after the run. *)
Lemma prepare_extensions_selects_witness :
  extensions (self (initial linux_cpython idle_compiler))
  = [raiser linux_cpython; iocpsupport linux_cpython]
  /\ exists st',
       prepare_extensions linux_cpython (initial linux_cpython idle_compiler)
       = (inr tt, st')
       /\ extensions (self st') = [raiser linux_cpython].
Proof.
  split; [reflexivity|].
  destruct (prepare_extensions_selects linux_cpython
              (initial linux_cpython idle_compiler) [true; false] ∅)
    as (st' & Hrun & _ & _ & Hsel & _).
  - econstructor; [reflexivity|]. econstructor; [reflexivity|]. constructor.
  - exists st'. split; [exact Hrun|exact Hsel].
Defined.

(** The extensions of the module that are built on three platforms. *)
Lemma _EXTENSIONS_selected :
  names (selected_by linux_cpython (initial linux_cpython idle_compiler))
  = ["twisted.test.raiser"]
  /\ names (selected_by windows_cpython (initial windows_cpython idle_compiler))
     = ["twisted.test.raiser"; "twisted.internet.iocpreactor.iocpsupport"]
  /\ names (selected_by linux_pypy (initial linux_pypy idle_compiler)) = [].
Proof. repeat split; vm_compute; reflexivity. Qed.

(** On every platform, the extensions of the module that are built are
    those that their conditions name. *)
Lemma _EXTENSIONS_selected_by env c :
  names (selected_by env (initial env c))
  = (if _isCPython env then ["twisted.test.raiser"] else [])
    ++ (if py_and (_isCPython env) (sys_platform env =? "win32")
        then ["twisted.internet.iocpreactor.iocpsupport"] else []).
Proof.
  unfold selected_by.
  erewrite prepare_extensions_returns
    by (econstructor; [reflexivity|econstructor; [reflexivity|constructor]]).
  cbn. by destruct (_isCPython env), (sys_platform env =? "win32").
Qed.

(** *** The lists of macros *)

Lemma copies_snoc n (items : list macro) :
  copies (S n) items = copies n items ++ items.
Proof.
  induction n as [|n IH]; cbn [copies] in *; [by rewrite app_nil_r|].
  by rewrite IH at 1; rewrite app_assoc.
Qed.

Lemma copies_nil n : copies n [] = [].
Proof. induction n; [reflexivity|exact IHn]. Qed.

(** A list gets the items once for every extension that holds it. *)
Lemma extend_all_lookup items sel : forall (h : Heap) r,
  extend_all items sel h !! r
  = (fun l => l ++ copies (references r sel) items) <$> h !! r.
Proof.
  induction sel as [|x sel IH]; intros h r.
  - cbn. destruct (h !! r); cbn; [by rewrite app_nil_r|reflexivity].
  - change (extend_all items (x :: sel) h)
      with (extend_all items sel
              (list_extend (ext_define_macros (base x)) items h)).
    rewrite IH. unfold list_extend, references. rewrite lookup_alter.
    rewrite filter_cons.
    destruct (decide (ext_define_macros (base x) = r)) as [Heq|Hne].
    + rewrite Heq. destruct (h !! r); cbn; [|reflexivity].
      by rewrite <- app_assoc.
    + reflexivity.
Qed.

Lemma references_zero r sel :
  (forall x, x ∈ sel -> ext_define_macros (base x) <> r) ->
  references r sel = 0.
Proof.
  intros H. unfold references.
  induction sel as [|x sel IH]; [reflexivity|].
  rewrite filter_cons, decide_False by (apply H; left).
  apply IH. intros y Hy. apply H. by right.
Qed.

Lemma references_pos x sel :
  x ∈ sel -> exists n, references (ext_define_macros (base x)) sel = S n.
Proof.
  intros H. unfold references.
  induction sel as [|y sel IH]; [by apply elem_of_nil in H|].
  rewrite filter_cons.
  destruct (decide (ext_define_macros (base y) = ext_define_macros (base x))).
  - eexists. reflexivity.
  - apply elem_of_cons in H as [->|H]; [done|by apply IH].
Qed.

Lemma platform_macros_spec env (m : macro) :
  m ∈ platform_macros env <->
  (m = ("WIN32", MInt 1) /\ os_name env = "nt")
  \/ ((m = ("_XOPEN_SOURCE", MInt 1) \/ m = ("_XOPEN_SOURCE_EXTENDED", MInt 1))
      /\ String.prefix "sunos" (sys_platform env) = true).
Proof.
  unfold platform_macros.
  destruct (String.eqb_spec (os_name env) "nt") as [Hnt|Hnt];
  destruct (String.prefix "sunos" (sys_platform env));
  cbn [app]; rewrite ?elem_of_cons, ?elem_of_nil; intuition congruence.
Qed.

(** C10, amended.  When [prepare_extensions] has run, the [define_macros]
    list of every selected extension ends with the platform macros (which it
    got once for every selected extension that holds this list);
    [("WIN32", 1)] is one of the platform macros iff [os.name] is ["nt"], and
    [("_XOPEN_SOURCE", 1)] and [("_XOPEN_SOURCE_EXTENDED", 1)] are iff
    [sys.platform] starts with ["sunos"]; a list that no selected extension
    holds receives no macros. *)
Theorem prepare_extensions_macros env st st' :
  prepare_extensions env st = (inr tt, st') ->
  (forall x l,
      x ∈ extensions (self st') ->
      define_macros_in st x = Some l ->
      exists n,
        references (ext_define_macros (base x)) (extensions (self st')) = S n
        /\ define_macros_in st' x
           = Some ((l ++ copies n (platform_macros env)) ++ platform_macros env))
  /\ (forall m : macro,
        m ∈ platform_macros env <->
        (m = ("WIN32", MInt 1) /\ os_name env = "nt")
        \/ ((m = ("_XOPEN_SOURCE", MInt 1)
             \/ m = ("_XOPEN_SOURCE_EXTENDED", MInt 1))
            /\ String.prefix "sunos" (sys_platform env) = true))
  /\ (forall r,
        (forall x, x ∈ extensions (self st') -> ext_define_macros (base x) <> r) ->
        lists st' !! r = lists st !! r).
Proof.
  intros Hrun.
  destruct (prepare_extensions_cases env st)
    as [(vs & fs' & Hret & Hrun')|(e & fs' & _ & Hrun')];
    rewrite Hrun' in Hrun; [|discriminate].
  injection Hrun as <-. unfold define_macros_in.
  cbn [prepared self extensions lists].
  split; [|split].
  - intros x l Hx Hl. destruct (references_pos x _ Hx) as [n Hn].
    exists n. split; [exact Hn|].
    rewrite extend_all_lookup, Hl, Hn. cbn [fmap option_fmap option_map].
    by rewrite copies_snoc, app_assoc.
  - apply platform_macros_spec.
  - intros r Hr. rewrite extend_all_lookup, (references_zero r _ Hr).
    destruct (lists st !! r); cbn; [by rewrite app_nil_r|reflexivity].
Qed.

Lemma prepare_extensions_macros_witness :
  exists n,
    references 1%positive (extensions (self windows_prepared)) = S n
    /\ define_macros_in windows_prepared (raiser windows_cpython)
       = Some (([] ++ copies n (platform_macros windows_cpython))
               ++ platform_macros windows_cpython).
Proof.
  refine (proj1 (prepare_extensions_macros windows_cpython
                   windows_build windows_prepared _)
            (raiser windows_cpython) [] _ _).
  - reflexivity.
  - change (raiser windows_cpython
            ∈ [raiser windows_cpython; iocpsupport windows_cpython]).
    left.
  - reflexivity.
Defined.

(** C10, as it is stated, fails where two extensions share a list: of the
    extensions [a] and [b] of [make_shared], made from one list of macros,
    only [a] is selected on Windows, and the [define_macros] of [b] has
    [("WIN32", 1)] all the same. *)
Lemma unselected_extension_receives_macros :
  names (conditionalExtensions (self shared_build)) = ["a"; "b"]
  /\ names (extensions (self shared_prepared)) = ["a"]
  /\ map (define_macros_in shared_build)
       (conditionalExtensions (self shared_build))
     = [Some [("NDEBUG", MNone)]; Some [("NDEBUG", MNone)]]
  /\ map (define_macros_in shared_prepared)
       (conditionalExtensions (self shared_build))
     = [Some [("NDEBUG", MNone); ("WIN32", MInt 1)];
        Some [("NDEBUG", MNone); ("WIN32", MInt 1)]].
Proof. repeat split; vm_compute; reflexivity. Qed.

(** C7, amended.  A run of [prepare_extensions], whether it returns or
    raises, leaves [conditionalExtensions] and the attributes of its
    extensions as they are, but not the lists that the extensions hold in
    [define_macros]: every list gets the platform macros once for each
    selected extension that holds it.  So a list that no selected extension
    holds is unchanged, and on a platform without platform macros no list
    is changed. *)
Theorem prepare_extensions_only_extends env st :
  let st' := (prepare_extensions env st).2 in
  let selected := selected_by env st in
  conditionalExtensions (self st') = conditionalExtensions (self st)
  /\ (forall r,
        lists st' !! r
        = (fun l => l ++ copies (references r selected) (platform_macros env))
            <$> lists st !! r)
  /\ (forall r, references r selected = 0 -> lists st' !! r = lists st !! r)
  /\ (os_name env <> "nt" ->
      String.prefix "sunos" (sys_platform env) = false ->
      lists st' = lists st).
Proof.
  intros st' selected. subst st' selected. unfold selected_by.
  assert (Hnone : os_name env <> "nt" ->
                  String.prefix "sunos" (sys_platform env) = false ->
                  platform_macros env = []).
  { intros Hnt Hsun. unfold platform_macros. rewrite Hsun.
    by destruct (String.eqb_spec (os_name env) "nt"). }
  assert (Hid : forall (h : Heap) r n,
             h !! r = (fun l => l ++ copies n []) <$> h !! r).
  { intros h r n. rewrite copies_nil.
    destruct (h !! r); cbn; [by rewrite app_nil_r|done]. }
  destruct (prepare_extensions_cases env st)
    as [(vs & fs' & _ & Hrun)|(e & fs' & _ & Hrun)]; rewrite Hrun;
    cbn [snd prepared interrupted self extensions conditionalExtensions lists].
  - assert (Hall := extend_all_lookup (platform_macros env)
                      (select (conditionalExtensions (self st)) vs) (lists st)).
    split; [reflexivity|]. split; [exact Hall|]. split.
    + intros r Hr. rewrite Hall, Hr.
      destruct (lists st !! r); cbn; [by rewrite app_nil_r|done].
    + intros Hnt Hsun. apply map_eq. intros r.
      rewrite Hall, (Hnone Hnt Hsun). symmetry. apply Hid.
  - split; [reflexivity|]. split; [|split; [reflexivity|intros; reflexivity]].
    intros r. cbn [references filter length copies].
    destruct (lists st !! r); cbn; [by rewrite app_nil_r|done].
Qed.

(** C7, as it is stated, fails on Windows: both extensions of the module
    are selected there, and their [define_macros], empty before
    [prepare_extensions], are [[("WIN32", 1)]] after it. *)
Lemma prepare_extensions_changes_define_macros :
  map (define_macros_in windows_build)
    (conditionalExtensions (self windows_build))
  = [Some []; Some []]
  /\ map (define_macros_in windows_prepared)
       (conditionalExtensions (self windows_prepared))
     = [Some [("WIN32", MInt 1)]; Some [("WIN32", MInt 1)]].
Proof. split; vm_compute; reflexivity. Qed.

(** *** Errors of the compiler *)

Lemma conditions_return_length b xs fs vs fs' :
  conditions_return b xs fs vs fs' -> length xs = length vs.
Proof. induction 1; cbn; congruence. Qed.

Lemma conditions_return_app b xs fs vs fs1 ys ws fs' :
  conditions_return b xs fs vs fs1 ->
  conditions_return b ys fs1 ws fs' ->
  conditions_return b (xs ++ ys) fs (vs ++ ws) fs'.
Proof.
  induction 1 as [fs|x xs fs v fs0 vs fs1 Hcall _ IH]; intros Hys;
    [exact Hys|].
  cbn [app]. econstructor; [exact Hcall|]. by apply IH.
Qed.

Lemma select_app {A} (xs ys : list A) vs ws :
  length xs = length vs ->
  select (xs ++ ys) (vs ++ ws) = select xs vs ++ select ys ws.
Proof.
  revert vs. induction xs as [|x xs IH]; intros [|v vs] Hlen;
    try discriminate; [reflexivity|].
  cbn [app select]. injection Hlen as Hlen. rewrite (IH vs Hlen).
  by destruct v.
Qed.

(** C2, amended.  Where the condition of a declared extension is a call of
    [_check_header], and the compiler, run on the probe [conftest.c] of this
    call, raises [CompileError], the error is caught: [_compile_helper]
    returns [False] (as it returns [True] where the compiler returns), the
    extension is left out of [self.extensions], in which the extensions
    before and behind it are as their own conditions decide,
    [prepare_extensions] returns, and [build_extensions] goes on with the
    step it inherits, on the extensions that were selected. *)
Theorem probe_failure_excludes env st pre x header post
    vs1 fs1 (v : bool) vs2 fs' :
  let b := platform_builder env st in
  let compiled :=
    compile (compiler b) ["conftest.c"] EmptyString
      (<["conftest.c" := include_line header]> fs1) in
  conditionalExtensions (self st) = pre ++ x :: post ->
  condition x = PCallable (fun b => _check_header b header) ->
  conditions_return b pre (files st) vs1 fs1 ->
  compiled.1 = (if v then inr tt else inl CompileError) ->
  conditions_return b post (without_conftest compiled.2) vs2 fs' ->
  _compile_helper b (include_line header) fs1
  = (inr v, without_conftest compiled.2)
  /\ exists st',
       prepare_extensions env st = (inr tt, st')
       /\ extensions (self st')
          = select pre vs1 ++ (if v then [x] else []) ++ select post vs2
       /\ files st' = fs'
       /\ build_extensions env st = build_ext_build_extensions st'.
Proof.
  intros b compiled HcE Hx Hpre Hc Hpost.
  assert (Hprobe : _compile_helper b (include_line header) fs1
                   = (inr v, without_conftest compiled.2)).
  { rewrite _compile_helper_run. cbn zeta. fold compiled. rewrite Hc.
    by destruct v. }
  split; [exact Hprobe|].
  assert (Hall : conditions_return b (conditionalExtensions (self st))
                   (files st) (vs1 ++ v :: vs2) fs').
  { rewrite HcE. eapply conditions_return_app; [exact Hpre|].
    econstructor; [|exact Hpost].
    rewrite Hx. cbn [call]. rewrite _check_header_run. exact Hprobe. }
  pose proof (prepare_extensions_returns env st _ fs' Hall) as Hrun.
  eexists. split; [exact Hrun|]. cbn [prepared self extensions files].
  split; [|split; [reflexivity|]].
  - rewrite HcE, select_app by (eapply conditions_return_length; exact Hpre).
    cbn [select]. by destruct v.
  - unfold build_extensions, bind. by rewrite Hrun.
Qed.

(** With a compiler that finds [sys/socket.h] and not [sys/epoll.h], the
    extension that needs the first is selected, the one that needs the
    second is not, and the build goes on. *)
Lemma probe_failure_excludes_witness :
  extensions (self headers_build) = []
  /\ exists st',
       prepare_extensions linux_cpython headers_build = (inr tt, st')
       /\ extensions (self st') = [header_extension (sendmsg, "sys/socket.h")]
       /\ build_extensions linux_cpython headers_build
          = build_ext_build_extensions st'.
Proof.
  split; [reflexivity|].
  destruct (probe_failure_excludes linux_cpython headers_build
              [header_extension (sendmsg, "sys/socket.h")]
              (header_extension (epoll, "sys/epoll.h")) "sys/epoll.h" []
              [true] (files headers_build) false [] (files headers_build))
    as (_ & st' & Hrun & Hsel & _ & Hbuild).
  - reflexivity.
  - reflexivity.
  - econstructor; [vm_compute; reflexivity|constructor].
  - reflexivity.
  - vm_compute. constructor.
  - exists st'. split; [exact Hrun|]. split; [exact Hsel|exact Hbuild].
Defined.

(** C2, as it is stated, fails when the compiler raises [CompileError] on
    the sources of an extension: on Linux and CPython
    [twisted.test.raiser] is selected, and the error ends
    [build_extensions]. *)
Lemma compile_error_ends_build :
  names (selected_by linux_cpython (initial linux_cpython broken_compiler))
  = ["twisted.test.raiser"]
  /\ (build_extensions linux_cpython (initial linux_cpython broken_compiler)).1
     = inl CompileError.
Proof. split; vm_compute; reflexivity. Qed.

(** ** The declared extensions *)

Lemma make_EXTENSIONS_run env :
  make_EXTENSIONS env ∅ = (inr (_EXTENSIONS env), _EXTENSIONS_heap).
Proof. reflexivity. Qed.

(** C3.  The module declares two extensions.  The condition of
    [twisted.test.raiser] returns [True] iff
    [platform.python_implementation()] is ["CPython"]; the condition of
    [twisted.internet.iocpreactor.iocpsupport] returns [True] iff that holds
    and [sys.platform] is ["win32"].  Neither looks at the builder or
    touches the files. *)
Theorem EXTENSIONS_conditions env :
  exists raiser iocpsupport heap,
    make_EXTENSIONS env ∅ = (inr [raiser; iocpsupport], heap)
    /\ ext_name (base raiser) = "twisted.test.raiser"
    /\ ext_name (base iocpsupport) = "twisted.internet.iocpreactor.iocpsupport"
    /\ (forall b fs, exists v,
          call (condition raiser) b fs = (inr v, fs)
          /\ (v = true <-> python_implementation env = "CPython"))
    /\ (forall b fs, exists v,
          call (condition iocpsupport) b fs = (inr v, fs)
          /\ (v = true <->
              python_implementation env = "CPython"
              /\ sys_platform env = "win32")).
Proof.
  eexists _, _, _. split; [reflexivity|]. cbn [base ext_name condition call].
  split; [reflexivity|]. split; [reflexivity|]. split.
  - intros b fs. eexists. split; [reflexivity|].
    unfold _isCPython, _checkCPython. apply String.eqb_eq.
  - intros b fs. eexists. split; [reflexivity|].
    unfold _isCPython, _checkCPython, py_and.
    destruct (String.eqb_spec (python_implementation env) "CPython") as [H1|H1];
    destruct (String.eqb_spec (sys_platform env) "win32") as [H2|H2];
    intuition congruence.
Qed.

(** C4.  Whatever the initialiser of [Extension] does with the other
    arguments: where it returns, on the arguments without the keyword
    [condition], [ConditionalExtension] constructs an object, which is the
    extension that the initialiser made together with a [condition]: the
    value of the keyword [condition] if there is one, and otherwise a
    function that returns [True] on every builder.  Where the initialiser
    raises, so does the constructor. *)
Theorem ConditionalExtension_condition Extension_init args kwargs (h : Heap) :
  match Extension_init args (delete "condition" kwargs) h with
  | (inr e, h') =>
      exists x,
        ConditionalExtension___init__ Extension_init args kwargs h
        = (inr x, h')
        /\ base x = e
        /\ condition x
           = default (PCallable (fun builder => ret true))
               (kwargs !! "condition")
        /\ match kwargs !! "condition" with
           | Some c => condition x = c
           | None => forall b fs, call (condition x) b fs = (inr true, fs)
           end
  | (inl err, h') =>
      ConditionalExtension___init__ Extension_init args kwargs h
      = (inl err, h')
  end.
Proof.
  unfold ConditionalExtension___init__, bind, ret.
  destruct (Extension_init args (delete "condition" kwargs) h)
    as [[err|e] h']; [reflexivity|].
  eexists. split; [reflexivity|]. cbn [base condition].
  split; [reflexivity|]. split; [reflexivity|].
  by destruct (kwargs !! "condition").
Qed.

(** An extension made with sources and with a condition has both. *)
Lemma ConditionalExtension_condition_witness :
  exists x h',
    ConditionalExtension___init__ Extension___init__ [PStr "b"]
      (<["sources" := PStrs ["b.c"]]>
       (<["condition" := PCallable (fun _ => ret false)]> ∅)) ∅
    = (inr x, h')
    /\ ext_sources (base x) = ["b.c"]
    /\ condition x = PCallable (fun _ => ret false).
Proof.
  pose proof (ConditionalExtension_condition Extension___init__ [PStr "b"]
                (<["sources" := PStrs ["b.c"]]>
                 (<["condition" := PCallable (fun _ => ret false)]> ∅)) ∅)
    as H.
  destruct (Extension___init__ [PStr "b"] _ ∅) as [[err|e] h'] eqn:Hinit;
    [discriminate|].
  destruct H as (x & Hrun & Hbase & _ & Hcond).
  exists x, h'. split; [exact Hrun|]. split.
  - rewrite Hbase. injection Hinit as <- _. reflexivity.
  - exact Hcond.
Defined.

(** The name and the sources given to the constructor are those of the
    extension. *)
Lemma Extension_sources args kwargs (h h' : Heap) name sources e :
  args = [PStr name] -> kwargs !! "name" = None ->
  kwargs !! "sources" = Some (PStrs sources) ->
  Extension___init__ args kwargs h = (inr e, h') ->
  ext_name e = name /\ ext_sources e = sources.
Proof.
  intros -> Hn Hs. unfold Extension___init__. cbn [bind_positional].
  rewrite Hn. rewrite lookup_insert_eq, lookup_insert_ne, Hs by done.
  unfold bind, ret. cbv beta.
  match goal with
  | |- (let (_, _) := ?m in _) = _ -> _ => destruct m as [[e0|r] h1]
  end; [discriminate|].
  intros H. injection H as <- <-. split; reflexivity.
Qed.

(** The constructor keeps a list of macros that is not empty, and so do
    all extensions made from it. *)
Lemma make_shared_run :
  exists a b,
    make_shared shared_heap = (inr [a; b], shared_heap)
    /\ ext_define_macros (base a) = ext_define_macros (base b).
Proof. eexists _, _. split; reflexivity. Qed.

(** ** The arguments of [setup()] *)

(** C5, amended.  For every list of extensions and every readme path at
    which there is a file, [getSetupArgs] returns a dictionary that has
    every item of [STATIC_PACKAGE_METADATA], [_EXTRAS_REQUIRE] at
    ["extras_require"], the extensions at ["ext_modules"], and at
    ["cmdclass"] a [build_ext] class whose [conditionalExtensions] are the
    extensions. *)
Theorem getSetupArgs_contents find_packages extensions readme (fs : FS) text :
  fs !! readme = Some text ->
  exists args,
    getSetupArgs find_packages extensions readme fs = (inr args, fs)
    /\ STATIC_PACKAGE_METADATA ⊆ args
    /\ args !! "extras_require" = Some (VExtras _EXTRAS_REQUIRE)
    /\ args !! "ext_modules" = Some (VExtensions extensions)
    /\ args !! "cmdclass"
       = Some (VDict [("build_ext",
                       VClass {| class_conditionalExtensions := extensions |})]).
Proof.
  intros Hfile.
  unfold getSetupArgs, bind, get, _longDescriptionFromReadme, bind, read_file,
    ret.
  rewrite Hfile.
  generalize (Re.sub true readme_link github_link text) as long_description.
  generalize (find_packages "src" fs) as packages.
  intros packages long_description.
  eexists. split; [reflexivity|].
  split; [apply map_union_subseteq_l|].
  repeat split; (rewrite lookup_union_r; [|reflexivity]); reflexivity.
Qed.

Lemma getSetupArgs_contents_witness :
  exists args,
    getSetupArgs one_package (_EXTENSIONS linux_cpython) "README.rst"
      sample_files
    = (inr args, sample_files)
    /\ STATIC_PACKAGE_METADATA ⊆ args
    /\ args !! "extras_require" = Some (VExtras _EXTRAS_REQUIRE)
    /\ args !! "ext_modules" = Some (VExtensions (_EXTENSIONS linux_cpython))
    /\ args !! "cmdclass"
       = Some (VDict [("build_ext",
                       VClass {| class_conditionalExtensions :=
                                   _EXTENSIONS linux_cpython |})]).
Proof.
  apply (getSetupArgs_contents one_package (_EXTENSIONS linux_cpython)
           "README.rst" sample_files (render sample_readme)).
  reflexivity.
Defined.

(** C5, as it is stated, fails for a readme path at which there is no
    file: [getSetupArgs] raises and returns no dictionary. *)
Lemma getSetupArgs_without_readme :
  getSetupArgs one_package (_EXTENSIONS linux_cpython) "README.rst" ∅
  = (inl FileNotFoundError, ∅).
Proof. reflexivity. Qed.

(** ** Optional dependencies *)

Lemma all_groups_ok group specs :
  _EXTRAS_REQUIRE !! group = Some specs -> forallb specifier_ok specs = true.
Proof.
  intros H. apply elem_of_map_to_list in H.
  let l := eval vm_compute in (map_to_list _EXTRAS_REQUIRE) in
  assert (E : map_to_list _EXTRAS_REQUIRE = l) by (vm_compute; reflexivity).
  rewrite E in H. clear E.
  repeat (apply elem_of_cons in H as [H|H];
          [injection H as -> ->; vm_compute; reflexivity|]).
  by apply elem_of_nil in H.
Qed.

(** C6, amended.  Every value of [_EXTRAS_REQUIRE] is a list of package
    specifiers, each of which names a package and has a version constraint
    unless it is one of the five of [unconstrained];
    ["all_non_platform"] is tls + conch + serial + http2 + contextvars,
    ["macos_platform"] is the macos options followed by that list,
    ["windows_platform"] is the windows options followed by it, and
    ["osx_platform"] is ["macos_platform"]. *)
Theorem EXTRAS_REQUIRE_groups :
  (forall group specs spec,
      _EXTRAS_REQUIRE !! group = Some specs -> spec ∈ specs ->
      package_name spec <> EmptyString
      /\ (version_constrained spec = false <-> spec ∈ unconstrained))
  /\ _EXTRAS_REQUIRE !! "all_non_platform"
     = Some (getitem _EXTRAS_REQUIRE "tls" ++ getitem _EXTRAS_REQUIRE "conch"
             ++ getitem _EXTRAS_REQUIRE "serial"
             ++ getitem _EXTRAS_REQUIRE "http2"
             ++ getitem _EXTRAS_REQUIRE "contextvars")
  /\ getitem _EXTRAS_REQUIRE "all_non_platform" = _PLATFORM_INDEPENDENT
  /\ _EXTRAS_REQUIRE !! "macos_platform"
     = Some (getitem _EXTRA_OPTIONS "macos" ++ _PLATFORM_INDEPENDENT)
  /\ _EXTRAS_REQUIRE !! "windows_platform"
     = Some (getitem _EXTRA_OPTIONS "windows" ++ _PLATFORM_INDEPENDENT)
  /\ _EXTRAS_REQUIRE !! "osx_platform" = _EXTRAS_REQUIRE !! "macos_platform".
Proof.
  split; [|repeat split; reflexivity].
  intros group specs spec Hg Hspec.
  pose proof (all_groups_ok group specs Hg) as Hall.
  apply list_elem_of_In in Hspec.
  pose proof (proj1 (forallb_forall _ _) Hall spec Hspec) as Hok.
  unfold specifier_ok in Hok. apply andb_true_iff in Hok as [Hname Hver].
  split.
  - intros E. rewrite E in Hname. discriminate.
  - apply Bool.eqb_prop in Hver.
    rewrite <- (negb_involutive (version_constrained spec)).
    rewrite Hver. rewrite negb_false_iff.
    rewrite existsb_exists. split.
    + intros (y & Hy & Heq). apply String.eqb_eq in Heq. subst y.
      by apply list_elem_of_In.
    + intros Hin. exists spec.
      split; [by apply list_elem_of_In|apply String.eqb_refl].
Qed.

(** C6, as it is stated, fails for the specifier ["pyasn1"] of the group
    ["conch"], which has no version constraint. *)
Lemma pyasn1_has_no_version :
  _EXTRAS_REQUIRE !! "conch"
  = Some ["pyasn1"; "cryptography >= 2.6"; "appdirs >= 1.4.0"; "bcrypt >= 3.0.0"]
  /\ version_constrained "pyasn1" = false
  /\ version_constrained "cryptography >= 2.6" = true.
Proof. repeat split; reflexivity. Qed.

(** ** The links of the readme *)

(** The pattern, as far as the label and the spaces behind it. *)
Lemma match_at_readme_link s :
  Re.match_at true readme_link s =
  match s with
  | [] => None
  | a :: s1 =>
      if Re.in_charset true (Re.Char "`") a
      then Re.plus_loop Match not_backquote s1
             (fun s2 => Re.plus_loop Match space s2 (link_tail s1 s2))
      else None
  end.
Proof. reflexivity. Qed.

(** *** Characters *)

(** A fact about one character, by trying the 256 of them. *)
Ltac by_cases_on a :=
  destruct a as [[] [] [] [] [] [] [] []]; vm_compute;
  try reflexivity; try discriminate; intros; try discriminate; reflexivity.

(** Letter case does not matter for the punctuation of the pattern. *)
Lemma char_backquote a : Re.in_charset true (Re.Char "`") a = Ascii.eqb a "`".
Proof. by_cases_on a. Qed.

Lemma char_lt a : Re.in_charset true (Re.Char "<") a = Ascii.eqb a "<".
Proof. by_cases_on a. Qed.

Lemma char_not_backquote a : not_backquote a = negb (Ascii.eqb a "`").
Proof. by_cases_on a. Qed.

Lemma char_not_gt a : not_gt a = negb (Ascii.eqb a ">").
Proof. by_cases_on a. Qed.

Lemma space_not_backquote a : space a = true -> Ascii.eqb a "`" = false.
Proof. by_cases_on a. Qed.

(** *** Greedy repetition *)

(** A repetition ends at the last place where the rest of the pattern
    matches. *)
Lemma plus_loop_first {R} p l X (k : list ascii -> option R) r :
  l <> [] -> Forall (fun a => p a = true) l ->
  Re.plus_loop R p X k = None -> k X = Some r ->
  Re.plus_loop R p (l ++ X) k = Some r.
Proof.
  intros Hne Hall HX Hk. induction l as [|a l IH]; [done|].
  inversion Hall as [|? ? Ha Hl]; subst. cbn. rewrite Ha.
  destruct l as [|b l].
  - cbn. rewrite HX. exact Hk.
  - rewrite IH; [reflexivity|discriminate|assumption].
Qed.

(** A repetition fails when the rest of the pattern matches at none of
    its ends. *)
Lemma plus_loop_all_fail {R} p l X (k : list ascii -> option R) :
  Re.plus_loop R p X k = None ->
  (forall v, v `suffix_of` l -> k (v ++ X) = None) ->
  Re.plus_loop R p (l ++ X) k = None.
Proof.
  intros HX Hk. induction l as [|a l IH]; [exact HX|].
  cbn. destruct (p a); [|reflexivity].
  rewrite IH.
  - apply Hk. apply suffix_cons_r. reflexivity.
  - intros v Hv. apply Hk. by apply suffix_cons_r.
Qed.

(** *** Texts without a link *)

Lemma quiet_not_lt_headed s : quiet s = true -> lt_headed s = false.
Proof.
  destruct s as [|a s]; [reflexivity|]. cbn.
  destruct (Ascii.eqb a "`") eqn:E.
  - apply Ascii.eqb_eq in E. subst a. reflexivity.
  - intros H. apply andb_true_iff in H as [H _]. by apply negb_true_iff in H.
Qed.

Lemma quiet_tail a s :
  Ascii.eqb a "`" = false -> quiet (a :: s) = true -> quiet s = true.
Proof. cbn. intros ->. intros H. by apply andb_true_iff in H as [_ H]. Qed.

Lemma quiet_app u s :
  forallb (fun a => negb (Ascii.eqb a "<")) u = true ->
  quiet s = true -> quiet (u ++ s) = true.
Proof.
  intros Hu Hs. induction u as [|a u IH]; [exact Hs|].
  cbn in *. apply andb_true_iff in Hu as [Ha Hu].
  destruct (Ascii.eqb a "`"); [reflexivity|]. rewrite Ha, IH; done.
Qed.

Lemma spaces_then_tail_fails {R} (k : list ascii -> option R) s :
  (forall s', lt_headed s' = false -> k s' = None) ->
  quiet s = true ->
  Re.plus_loop R space s k = None.
Proof.
  intros Hk. induction s as [|a s IH]; intros Hq; [reflexivity|].
  cbn [Re.plus_loop]. destruct (space a) eqn:Ha; [|reflexivity].
  pose proof (quiet_tail a s (space_not_backquote a Ha) Hq) as Hq'.
  rewrite (IH Hq'). apply Hk. by apply quiet_not_lt_headed.
Qed.

Lemma label_then_tail_fails {R} (k : list ascii -> list ascii -> option R) s :
  (forall s0 s', lt_headed s' = false -> k s0 s' = None) ->
  quiet s = true ->
  Re.plus_loop R not_backquote s (fun s2 => Re.plus_loop R space s2 (k s2))
  = None.
Proof.
  intros Hk. induction s as [|a s IH]; intros Hq; [reflexivity|].
  cbn [Re.plus_loop]. rewrite char_not_backquote.
  destruct (Ascii.eqb a "`") eqn:Ha; [reflexivity|]. cbn [negb].
  pose proof (quiet_tail a s Ha Hq) as Hq'.
  rewrite (IH Hq'). apply spaces_then_tail_fails; [apply Hk|exact Hq'].
Qed.

Lemma link_tail_not_lt s1 s2 s3 :
  lt_headed s3 = false -> link_tail s1 s2 s3 = None.
Proof.
  destruct s3 as [|a s3]; [reflexivity|]. cbn [lt_headed link_tail].
  rewrite char_lt. by intros ->.
Qed.

(** The pattern does not match at a backquote that no [<] follows before
    the next backquote. *)
Lemma no_match_when_quiet s :
  quiet s = true -> Re.match_at true readme_link ("`"%char :: s) = None.
Proof.
  intros Hq. rewrite match_at_readme_link, char_backquote. cbn [Ascii.eqb].
  change (Ascii.eqb "`" "`") with true. cbv iota.
  apply (label_then_tail_fails (fun s2 => link_tail s s2)); [|exact Hq].
  intros s0 s'. apply link_tail_not_lt.
Qed.

Lemma no_match_elsewhere a s :
  Ascii.eqb a "`" = false -> Re.match_at true readme_link (a :: s) = None.
Proof. intros Ha. by rewrite match_at_readme_link, char_backquote, Ha. Qed.

(** *** The look-ahead *)

(** The look-ahead finds [https?://] where the text begins with
    [http://] or [https://], in either letter case. *)
Lemma absolute_url_ahead s groups :
  Re.run true absolute_url unit s groups (fun _ _ => Some tt)
  = if absolute s then Some tt else None.
Proof.
  unfold absolute, absolute_url.
  cbn [Re.run Re.seq Re.literal fold_right map list_ascii_of_string
       Re.in_charset starts_with_ignoring_case].
  repeat (destruct s as [|? s]; cbn [andb orb]; try reflexivity;
          repeat match goal with
            | |- context [Re.same_char true ?x ?a] =>
                destruct (Re.same_char true x a); cbn [andb orb]; try reflexivity
            end).
Qed.

(** *** Links *)

Lemma take_app_minus (l X : list ascii) :
  take (length (l ++ X) - length X) (l ++ X) = l.
Proof.
  rewrite length_app. replace (length l + length X - length X) with (length l) by lia.
  by rewrite take_app_length.
Qed.

Lemma link_tail_absolute s1 s2 T :
  absolute T = true -> link_tail s1 s2 ("<"%char :: T) = None.
Proof.
  intros H. cbn [link_tail]. rewrite char_lt. change (Ascii.eqb "<" "<") with true.
  cbv iota. by rewrite absolute_url_ahead, H.
Qed.

Lemma link_tail_match s1 s2 t R :
  absolute (t ++ chars ">`_" ++ R) = false ->
  t <> [] -> Forall (fun a => not_gt a = true) t ->
  link_tail s1 s2 ("<"%char :: t ++ chars ">`_" ++ R)
  = Some (R, [take (length s1 - length s2) s1; t]).
Proof.
  intros Habs Hne Hall. cbn [link_tail]. rewrite char_lt.
  change (Ascii.eqb "<" "<") with true. cbv iota.
  rewrite absolute_url_ahead, Habs.
  apply plus_loop_first; [assumption..| |].
  - reflexivity.
  - cbn -[take length]. rewrite take_app_minus. reflexivity.
Qed.

Lemma starts_with_before_gt p t R :
  forallb (fun x => negb (Re.same_char true x ">")) p = true ->
  starts_with_ignoring_case p (t ++ ">"%char :: R)
  = starts_with_ignoring_case p t.
Proof.
  revert t. induction p as [|x p IH]; intros t Hp; [by destruct t|].
  cbn in Hp. apply andb_true_iff in Hp as [Hx Hp].
  destruct t as [|a t]; cbn.
  - apply negb_true_iff in Hx. by rewrite Hx.
  - by rewrite IH.
Qed.

Lemma absolute_target t R :
  absolute (t ++ chars ">`_" ++ R) = absolute t.
Proof.
  unfold absolute. cbn [list_ascii_of_string app].
  by rewrite !starts_with_before_gt.
Qed.

Lemma quiet_target t R :
  forallb (fun a => negb (Ascii.eqb a "<")) t = true ->
  quiet (t ++ chars ">`_" ++ R) = true.
Proof. intros Ht. apply quiet_app; [exact Ht|reflexivity]. Qed.

(** Behind the label the first group cannot end anywhere else. *)
Lemma no_later_end {R} (k : list ascii -> list ascii -> option R) T :
  (forall s0 s', lt_headed s' = false -> k s0 s' = None) ->
  quiet T = true ->
  Re.plus_loop R not_backquote (" "%char :: "<"%char :: T)
    (fun s2 => Re.plus_loop R space s2 (k s2)) = None.
Proof.
  intros Hk Hq. cbn [Re.plus_loop].
  rewrite !char_not_backquote.
  change (Ascii.eqb " " "`") with false. change (Ascii.eqb "<" "`") with false.
  cbn [negb]. rewrite (label_then_tail_fails k T Hk Hq).
  rewrite (spaces_then_tail_fails (k T) T (Hk T) Hq).
  reflexivity.
Qed.

(** The pattern matches a link to a file, with the label and the target as
    its groups. *)
Lemma link_matches l t R :
  l <> [] -> Forall (fun a => not_backquote a = true) l ->
  t <> [] -> Forall (fun a => not_gt a = true) t ->
  forallb (fun a => negb (Ascii.eqb a "<")) t = true ->
  absolute t = false ->
  Re.match_at true readme_link
    ("`"%char :: l ++ " "%char :: "<"%char :: t ++ chars ">`_" ++ R)
  = Some (R, [l; t]).
Proof.
  intros Hl Hlb Ht Htg Htl Habs.
  rewrite match_at_readme_link, char_backquote.
  change (Ascii.eqb "`" "`") with true. cbv iota.
  set (X := " "%char :: "<"%char :: t ++ chars ">`_" ++ R).
  apply plus_loop_first; [assumption..| |].
  - apply (no_later_end (fun s2 => link_tail (l ++ X) s2)).
    + intros s0 s'. apply link_tail_not_lt.
    + by apply quiet_target.
  - subst X. cbn [Re.plus_loop].
    change (space " ") with true. change (space "<") with false. cbv iota.
    rewrite link_tail_match; [|by rewrite absolute_target|assumption..].
    by rewrite take_app_minus.
Qed.

Lemma spaces_before_absolute {R} (k : list ascii -> option R) v T :
  (forall s', lt_headed s' = false -> k s' = None) ->
  k ("<"%char :: T) = None ->
  forallb (fun a => negb (Ascii.eqb a "<")) v = true ->
  Re.plus_loop R space (v ++ " "%char :: "<"%char :: T) k = None.
Proof.
  intros Hk HT. induction v as [|a v IH]; intros Hv.
  - cbn [app Re.plus_loop]. change (space " ") with true.
    change (space "<") with false. cbv iota. exact HT.
  - cbn in Hv. apply andb_true_iff in Hv as [Ha Hv].
    cbn [app Re.plus_loop]. destruct (space a); [|reflexivity].
    rewrite (IH Hv). apply Hk.
    destruct v as [|b v]; [reflexivity|].
    cbn in Hv |- *. apply andb_true_iff in Hv as [Hb _].
    by apply negb_true_iff in Hb.
Qed.

(** The pattern does not match a link to a site. *)
Lemma absolute_link_no_match l t R :
  forallb (fun a => negb (Ascii.eqb a "<")) l = true ->
  forallb (fun a => negb (Ascii.eqb a "<")) t = true ->
  absolute t = true ->
  Re.match_at true readme_link
    ("`"%char :: l ++ " "%char :: "<"%char :: t ++ chars ">`_" ++ R)
  = None.
Proof.
  intros Hl Ht Habs.
  rewrite match_at_readme_link, char_backquote.
  change (Ascii.eqb "`" "`") with true. cbv iota.
  set (T := t ++ chars ">`_" ++ R).
  apply plus_loop_all_fail.
  - apply (no_later_end (fun s2 => link_tail _ s2)).
    + intros s0 s'. apply link_tail_not_lt.
    + by apply quiet_target.
  - intros v Hv. apply spaces_before_absolute.
    + apply link_tail_not_lt.
    + apply link_tail_absolute. subst T. by rewrite absolute_target.
    + destruct Hv as [u ->]. rewrite forallb_app in Hl.
      by apply andb_true_iff in Hl as [_ Hl].
Qed.

(** *** The substitution *)

Lemma resub_keep a s :
  Re.match_at true readme_link (a :: s) = None ->
  resub 0 (a :: s) = a :: resub 0 s.
Proof. intros H. cbn [Re.sub_from]. by rewrite H. Qed.

Lemma resub_skip u s : resub (length u) (u ++ s) = resub 0 s.
Proof.
  induction u as [|a u IH]; [reflexivity|].
  destruct u; cbn [length app Re.sub_from] in *; exact IH.
Qed.

Lemma resub_no_backquote u s :
  forallb (fun a => negb (Ascii.eqb a "`")) u = true ->
  resub 0 (u ++ s) = u ++ resub 0 s.
Proof.
  induction u as [|a u IH]; intros Hu; [reflexivity|].
  cbn in Hu. apply andb_true_iff in Hu as [Ha Hu]. apply negb_true_iff in Ha.
  cbn [app]. rewrite resub_keep by (by apply no_match_elsewhere).
  by rewrite IH.
Qed.

(** Text without [<] is kept, before text that begins quietly. *)
Lemma resub_quiet u s :
  forallb (fun a => negb (Ascii.eqb a "<")) u = true ->
  quiet s = true ->
  resub 0 (u ++ s) = u ++ resub 0 s.
Proof.
  induction u as [|a u IH]; intros Hu Hs; [reflexivity|].
  cbn in Hu. apply andb_true_iff in Hu as [Ha Hu].
  cbn [app]. rewrite resub_keep, IH; try done.
  destruct (Ascii.eqb a "`") eqn:E.
  - apply Ascii.eqb_eq in E. subst a. apply no_match_when_quiet.
    by apply quiet_app.
  - by apply no_match_elsewhere.
Qed.

(** *** Readme texts *)

Lemma chars_app s1 s2 : chars (s1 +:+ s2) = chars s1 ++ chars s2.
Proof.
  induction s1 as [|a s1 IH]; [reflexivity|].
  change (a :: chars (s1 +:+ s2) = a :: (chars s1 ++ chars s2)).
  by rewrite IH.
Qed.

Lemma chars_render_cons i doc :
  chars (render (i :: doc)) = chars (render_item i) ++ chars (render doc).
Proof. exact (chars_app (render_item i) (render doc)). Qed.

Lemma is_empty_chars s : is_empty s = false -> chars s <> [].
Proof. by destruct s. Qed.

Lemma has_not a s :
  has a s = false ->
  forallb (fun b => negb (Ascii.eqb b a)) (chars s) = true.
Proof.
  unfold has. induction (chars s) as [|b l IH]; cbn; [done|].
  intros H. apply orb_false_iff in H as [Hb Hl].
  rewrite Ascii.eqb_sym, Hb. cbn. by apply IH.
Qed.

Lemma has_not_Forall a s (p : ascii -> bool) :
  (forall b, p b = negb (Ascii.eqb b a)) ->
  has a s = false -> Forall (fun b => p b = true) (chars s).
Proof.
  intros Hp H. apply has_not in H. apply Forall_forall. intros x Hx.
  apply list_elem_of_In in Hx. rewrite Hp.
  exact (proj1 (forallb_forall _ _) H x Hx).
Qed.

Lemma quiet_render doc :
  forallb well_formed doc = true -> quiet (chars (render doc)) = true.
Proof.
  induction doc as [|[a|label target] doc IH]; intros Hwf; [reflexivity| |].
  - cbn in Hwf. apply andb_true_iff in Hwf as [Ha Hwf].
    rewrite chars_render_cons. cbn [render_item list_ascii_of_string app quiet].
    destruct (Ascii.eqb a "`"); [reflexivity|]. by rewrite Ha, IH.
  - reflexivity.
Qed.

(** The substitution, link by link. *)
Lemma resub_render doc :
  forallb well_formed doc = true ->
  resub 0 (chars (render doc)) = chars (render (map github_item doc)).
Proof.
  induction doc as [|[a|label target] doc IH]; intros Hwf; [reflexivity| |].
  - cbn [forallb well_formed] in Hwf. apply andb_true_iff in Hwf as [Ha Hwf].
    cbn [map github_item]. rewrite !chars_render_cons.
    cbn [render_item list_ascii_of_string].
    rewrite resub_quiet; [by rewrite IH| |by apply quiet_render].
    cbn. by rewrite Ha.
  - cbn [forallb well_formed] in Hwf. apply andb_true_iff in Hwf as [Hlink Hwf].
    repeat (apply andb_true_iff in Hlink as [Hlink ?]).
    repeat match goal with H : negb _ = true |- _ => apply negb_true_iff in H end.
    cbn [map github_item]. rewrite !chars_render_cons.
    specialize (IH Hwf).
    assert (Hshape : forall tgt,
      chars (render_item (Link label tgt))
      = "`"%char :: chars label ++ " "%char :: "<"%char :: chars tgt ++ chars ">`_").
    { intros tgt. cbn [render_item]. rewrite !chars_app. reflexivity. }
    destruct (is_absolute target) eqn:Habs.
    + rewrite Hshape. cbn [app]. rewrite <- !app_assoc. cbn [app].
      rewrite <- app_assoc.
      rewrite resub_keep.
      2:{ apply absolute_link_no_match; [by apply has_not..|exact Habs]. }
      f_equal.
      change (chars label ++ " "%char :: "<"%char :: chars target
                ++ chars ">`_" ++ chars (render doc))
        with (chars label ++ [" "%char; "<"%char] ++ chars target
                ++ chars ">`_" ++ chars (render doc)).
      rewrite app_assoc.
      rewrite resub_no_backquote.
      2:{ rewrite forallb_app. rewrite (has_not "`" label) by done. reflexivity. }
      rewrite <- app_assoc. do 2 f_equal.
      rewrite app_assoc.
      rewrite resub_quiet; [by rewrite IH, <- app_assoc| |by apply quiet_render].
      rewrite forallb_app, (has_not "<" target) by done. reflexivity.
    + rewrite !Hshape. cbn [app]. rewrite <- !app_assoc. cbn [app].
      rewrite <- !app_assoc.
      cbn [Re.sub_from].
      rewrite link_matches; try (by apply is_empty_chars); try exact Habs.
      2:{ apply (has_not_Forall "`" label); [apply char_not_backquote|done]. }
      2:{ apply (has_not_Forall ">" target); [apply char_not_gt|done]. }
      2:{ by apply has_not. }
      set (R := chars (render doc)) in *.
      set (W := chars label ++ [" "%char; "<"%char] ++ chars target ++ chars ">`_").
      assert (E : chars label ++ " "%char :: "<"%char :: chars target
                    ++ chars ">`_" ++ R = W ++ R).
      { subst W. rewrite <- !app_assoc. reflexivity. }
      rewrite E.
      replace (length ("`"%char :: W ++ R) <=? length R)%nat with false.
      2:{ symmetry. apply Nat.leb_gt. cbn [length]. rewrite length_app. lia. }
      replace (length (W ++ R) - length R) with (length W)
        by (rewrite length_app; lia).
      rewrite resub_skip, IH.
      cbn [Re.expand github_link map concat nth Nat.sub].
      rewrite chars_app, app_nil_r, <- !app_assoc. reflexivity.
Qed.

(** C8, amended.  For every readme made of links [`label <target>`_] and
    of other characters, with no [<] outside the links, labels that are not
    empty and have no backquote and no [<], and targets that are not empty
    and have no [<] and no [>], [_longDescriptionFromReadme] returns the
    readme in which every link whose target does not begin with [http://]
    or [https://], letter case ignored, has become
    [`label <https://github.com/twisted/twisted/blob/trunk/target>`_], and
    in which every other link and character is as it was. *)
Theorem longDescription_rewrites readme (fs : FS) doc :
  forallb well_formed doc = true ->
  fs !! readme = Some (render doc) ->
  _longDescriptionFromReadme readme fs
  = (inr (render (map github_item doc)), fs).
Proof.
  intros Hwf Hfile.
  unfold _longDescriptionFromReadme, bind, read_file, ret, Re.sub.
  rewrite Hfile, resub_render by exact Hwf.
  by rewrite string_of_list_ascii_of_string.
Qed.

Lemma longDescription_rewrites_witness :
  _longDescriptionFromReadme "README.rst" sample_files
  = (inr ("See `NEWS <https://github.com/twisted/twisted/blob/trunk/NEWS.rst>`_,"
          +:+ " `the site <https://twistedmatrix.com/>`_."),
     sample_files).
Proof.
  apply (longDescription_rewrites "README.rst" sample_files sample_readme);
    reflexivity.
Defined.

(** C8, as it is stated, fails for a link whose target begins with
    [HTTP://]: the target does not begin with [http://] or [https://], and
    the link is not rewritten. *)
Lemma capitals_are_kept :
  String.prefix "http://" "HTTP://twistedmatrix.com" = false
  /\ String.prefix "https://" "HTTP://twistedmatrix.com" = false
  /\ capitals_readme = render [Link "site" "HTTP://twistedmatrix.com"]
  /\ _longDescriptionFromReadme "README.rst" capitals_files
     = (inr capitals_readme, capitals_files)
  /\ capitals_readme
     <> render
          [Link "site"
             ("https://github.com/twisted/twisted/blob/trunk/"
              +:+ "HTTP://twistedmatrix.com")].
Proof. repeat split; vm_compute; try reflexivity. discriminate. Qed.

(** What the pattern does where a text is not of the form above. *)
Lemma _longDescriptionFromReadme_examples :
  let long text :=
    (_longDescriptionFromReadme "README.rst" (<["README.rst" := text]> ∅)).1 in
  long "`NEWS  <NEWS.rst>`_"
  = inr "`NEWS  <https://github.com/twisted/twisted/blob/trunk/NEWS.rst>`_"
  /\ long "`x <y <http://z>`_"
     = inr "`x <https://github.com/twisted/twisted/blob/trunk/y <http://z>`_"
  /\ long "`b <c>d>`_" = inr "`b <c>d>`_"
  /\ long "`NEWS<NEWS.rst>`_" = inr "`NEWS<NEWS.rst>`_".
Proof. repeat split; vm_compute; reflexivity. Qed.

(** * Further properties *)

(** ** The files of a probe *)

Lemma without_conftest_spec (fs : FS) path :
  without_conftest fs !! path
  = if bool_decide (path ∈ conftest_files) then None else fs !! path.
Proof.
  destruct (without_conftest_lookup fs) as (Hc & Ho & Hobj).
  unfold conftest_files. case_bool_decide as H.
  - rewrite !elem_of_cons in H. destruct H as [->|[->|[->|H]]]; try done.
    by apply elem_of_nil in H.
  - rewrite !elem_of_cons in H. unfold without_conftest.
    rewrite !lookup_delete_ne; [done|..]; intros E; subst path; tauto.
Qed.

(** X1.  [_remove_conftest] never raises, whether the three files are there
    or not; afterwards [conftest.c], [conftest.o] and [conftest.obj] are
    gone and every other file is as it was, and a second call changes
    nothing. *)
Theorem remove_conftest_frame self (fs : FS) :
  exists fs',
    _remove_conftest self fs = (inr tt, fs')
    /\ (forall path,
          fs' !! path
          = if bool_decide (path ∈ conftest_files) then None else fs !! path)
    /\ _remove_conftest self fs' = (inr tt, fs').
Proof.
  exists (without_conftest fs). rewrite !_remove_conftest_run.
  split; [reflexivity|]. split; [apply without_conftest_spec|].
  f_equal. apply map_eq. intros path. rewrite !without_conftest_spec.
  by case_bool_decide.
Qed.

(** X2.  The compiler that [_compile_helper] runs finds [content] in
    [conftest.c], whatever was there before; whether the compiler returns or
    raises, [_compile_helper] leaves every file other than [conftest.c],
    [conftest.o] and [conftest.obj] as the compiler left it, and these three
    are gone, also when they were there before the call. *)
Theorem compile_helper_frame self content (fs : FS) :
  let compiled :=
    compile (compiler self) ["conftest.c"] EmptyString
      (<["conftest.c" := content]> fs) in
  forall path,
    (_compile_helper self content fs).2 !! path
    = if bool_decide (path ∈ conftest_files) then None else compiled.2 !! path.
Proof.
  intros compiled path. rewrite _compile_helper_run. cbn zeta. cbn [snd].
  apply without_conftest_spec.
Qed.

(** ** Checks of headers *)

Lemma header_checks_return b (accepts : string -> bool) :
  (forall content fs,
      fs !! "conftest.c" = Some content ->
      (compile (compiler b) ["conftest.c"] EmptyString fs).1
      = if accepts content then inr tt else inl CompileError) ->
  forall hs fs, exists fs',
    conditions_return b (map header_extension hs) fs
      (map (fun eh => accepts (include_line eh.2)) hs) fs'
    /\ (hs <> [] -> forall path, path ∈ conftest_files -> fs' !! path = None).
Proof.
  intros Hc hs. induction hs as [|eh hs IH]; intros fs.
  - exists fs. split; [constructor|done].
  - set (fs1 := (call (condition (header_extension eh)) b fs).2).
    assert (Hcall : call (condition (header_extension eh)) b fs
                    = (inr (accepts (include_line eh.2)), fs1)).
    { subst fs1. cbn [header_extension condition call].
      rewrite _check_header_run, _compile_helper_run. cbn zeta.
      fold (include_line eh.2).
      rewrite (Hc (include_line eh.2)) by apply lookup_insert_eq.
      by destruct (accepts (include_line eh.2)). }
    assert (Hclean : forall path, path ∈ conftest_files -> fs1 !! path = None).
    { intros path Hp. subst fs1. cbn [header_extension condition call].
      rewrite _check_header_run, _compile_helper_run. cbn zeta. cbn [snd].
      rewrite without_conftest_spec. by rewrite bool_decide_eq_true_2. }
    destruct (IH fs1) as (fs' & Hret & Hrest). exists fs'. split.
    + cbn [map]. econstructor; eassumption.
    + intros _. destruct hs as [|eh' hs]; [|by apply Hrest].
      inversion Hret; subst. exact Hclean.
Qed.

Lemma select_map_filter {A B} (f : A -> B) (p : A -> bool) (l : list A) :
  select (map f l) (map p l) = map f (List.filter p l).
Proof.
  induction l as [|a l IH]; [reflexivity|].
  cbn [map select List.filter]. rewrite IH. by destruct (p a).
Qed.

(** X3.  When the compiler accepts or rejects [conftest.c] by its text,
    raising [CompileError] where it rejects, and every conditional extension
    has a call of [_check_header] as its condition, [prepare_extensions]
    returns and selects exactly the extensions whose line
    [#include <header>] the compiler accepts, in their order; no probe file
    is left behind. *)
Theorem header_checks_select env st (accepts : string -> bool) hs :
  (forall content fs,
      fs !! "conftest.c" = Some content ->
      (compile (compiler (builder (self st))) ["conftest.c"] EmptyString fs).1
      = if accepts content then inr tt else inl CompileError) ->
  conditionalExtensions (self st) = map header_extension hs ->
  exists st',
    prepare_extensions env st = (inr tt, st')
    /\ extensions (self st')
       = map header_extension
           (List.filter (fun eh => accepts (include_line eh.2)) hs)
    /\ (hs <> [] ->
        forall path, path ∈ conftest_files -> files st' !! path = None).
Proof.
  intros Hc HcE.
  destruct (header_checks_return (platform_builder env st) accepts Hc hs
              (files st)) as (fs' & Hret & Hclean).
  rewrite <- HcE in Hret.
  pose proof (prepare_extensions_returns env st _ fs' Hret) as Hrun.
  eexists. split; [exact Hrun|]. cbn [prepared self extensions files].
  split; [|exact Hclean].
  rewrite HcE. apply select_map_filter.
Qed.

Lemma header_checks_select_witness :
  exists st',
    prepare_extensions linux_cpython headers_build = (inr tt, st')
    /\ extensions (self st') = map header_extension [(sendmsg, "sys/socket.h")]
    /\ files st' !! "conftest.o" = None.
Proof.
  destruct (header_checks_select linux_cpython headers_build
              (fun content => bool_decide (content ∈ [include_line "sys/socket.h"]))
              [(sendmsg, "sys/socket.h"); (epoll, "sys/epoll.h")])
    as (st' & Hrun & Hsel & Hclean).
  - intros content fs Hfs. cbn. unfold bind, get. rewrite Hfs.
    destruct (bool_decide _); reflexivity.
  - reflexivity.
  - exists st'. split; [exact Hrun|]. split; [exact Hsel|].
    apply Hclean; [discriminate|]. unfold conftest_files.
    apply elem_of_cons. right. apply elem_of_cons. by left.
Defined.

(** ** Conditions that raise *)

Lemma filterM_raises b xs fs e fs' :
  conditions_raise b xs fs e fs' ->
  forall st, files st = fs ->
  filterM (fun x => on_files (call (condition x) b)) xs st
  = (inl e, with_files st fs').
Proof.
  induction 1 as [x xs fs e fs' Hcall|x xs fs v fs1 e fs' Hcall _ IH];
    intros st Hfs; rewrite filterM_cons; unfold on_files at 1;
    rewrite Hfs, Hcall; [reflexivity|].
  by rewrite (IH (with_files st fs1) eq_refl).
Qed.

Lemma filterM_raised b xs : forall st e st',
  filterM (fun x => on_files (call (condition x) b)) xs st = (inl e, st') ->
  conditions_raise b xs (files st) e (files st')
  /\ st' = with_files st (files st').
Proof.
  induction xs as [|x xs IH]; intros st e st'; [discriminate|].
  rewrite filterM_cons. unfold on_files at 1.
  destruct (call (condition x) b (files st)) as [[e1|v] fs1] eqn:Hcall.
  - intros H. injection H as <- <-. split; [|reflexivity].
    by apply raises_first.
  - destruct (filterM _ xs (with_files st fs1)) as [[e2|r] s2] eqn:Hrest;
      [|discriminate].
    intros H. injection H as <- <-.
    destruct (IH _ _ _ Hrest) as [Hr Hs]. split.
    + eapply raises_later; eassumption.
    + rewrite Hs at 1. reflexivity.
Qed.

(** X4.  When the conditions are called in order and one of them raises,
    after those before it returned, [prepare_extensions] raises the same
    exception: no later condition is called, [self.extensions] is not
    assigned and no list of macros is extended.  A condition that is not
    callable raises [TypeError]. *)
Theorem raising_condition_ends_prepare env st e fs' :
  conditions_raise (platform_builder env st)
    (conditionalExtensions (self st)) (files st) e fs' ->
  prepare_extensions env st = (inl e, interrupted env st fs').
Proof.
  intros H. rewrite prepare_extensions_run.
  by rewrite (filterM_raises _ _ _ _ _ H (interrupted env st (files st)) eq_refl).
Qed.

Lemma raising_condition_ends_prepare_witness :
  prepare_extensions linux_cpython uncallable_build
  = (inl TypeError, interrupted linux_cpython uncallable_build ∅).
Proof.
  apply (raising_condition_ends_prepare linux_cpython uncallable_build).
  apply raises_first. reflexivity.
Defined.

(** X5.  [prepare_extensions] raises only what a condition raised: when it
    raises [e], the conditions were called in order and one of them raised
    [e]; [build_extensions] then raises [e] as well and compiles nothing,
    [self.extensions] is what it was before the call, and so are the lists
    of macros of the extensions. *)
Theorem condition_error_ends_build env st e st' :
  prepare_extensions env st = (inl e, st') ->
  conditions_raise (platform_builder env st)
    (conditionalExtensions (self st)) (files st) e (files st')
  /\ build_extensions env st = (inl e, st')
  /\ extensions (self st') = extensions (self st)
  /\ lists st' = lists st.
Proof.
  intros Hrun. pose proof Hrun as Hrun'.
  rewrite prepare_extensions_run in Hrun.
  destruct (filterM _ _ (interrupted env st (files st)))
    as [[e1|sel] st1] eqn:Hf; [|discriminate].
  injection Hrun as <- <-.
  destruct (filterM_raised _ _ _ _ _ Hf) as [Hr Hs].
  split; [exact Hr|]. split.
  - unfold build_extensions, bind. by rewrite Hrun'.
  - rewrite Hs. split; reflexivity.
Qed.

Lemma condition_error_ends_build_witness :
  conditions_raise (platform_builder linux_cpython uncallable_build)
    (conditionalExtensions (self uncallable_build)) (files uncallable_build)
    TypeError (files uncallable_build)
  /\ build_extensions linux_cpython uncallable_build
     = (inl TypeError, interrupted linux_cpython uncallable_build ∅)
  /\ extensions (self (interrupted linux_cpython uncallable_build ∅))
     = extensions (self uncallable_build)
  /\ lists (interrupted linux_cpython uncallable_build ∅)
     = lists uncallable_build.
Proof.
  apply (condition_error_ends_build linux_cpython uncallable_build TypeError
           (interrupted linux_cpython uncallable_build ∅)).
  reflexivity.
Defined.

(** ** What a run depends on *)

Lemma filterM_with_extensions b l xs : forall st,
  filterM (fun x => on_files (call (condition x) b)) xs (with_extensions st l)
  = ((filterM (fun x => on_files (call (condition x) b)) xs st).1,
     with_extensions (filterM (fun x => on_files (call (condition x) b)) xs st).2 l).
Proof.
  induction xs as [|x xs IH]; intros st; [reflexivity|].
  rewrite !filterM_cons. unfold on_files at 1 3 5. cbn [with_extensions files].
  destruct (call (condition x) b (files st)) as [[e|v] fs1]; [reflexivity|].
  change (with_files (with_extensions st l) fs1)
    with (with_extensions (with_files st fs1) l).
  rewrite IH.
  destruct (filterM _ xs (with_files st fs1)) as [[e|r] s2]; reflexivity.
Qed.

(** X6.  What [self.extensions] holds before [prepare_extensions] (the
    [ext_modules] that [getSetupArgs] hands to [setup()]) has no effect on
    the run: the outcome, the selected extensions, the files and the lists
    of macros are the same for every earlier value.  The selected extensions
    are some of [conditionalExtensions], in their order. *)
Theorem prepare_extensions_ignores_extensions env st l :
  (prepare_extensions env (with_extensions st l)).1 = (prepare_extensions env st).1
  /\ selected_by env (with_extensions st l) = selected_by env st
  /\ files (prepare_extensions env (with_extensions st l)).2
     = files (prepare_extensions env st).2
  /\ lists (prepare_extensions env (with_extensions st l)).2
     = lists (prepare_extensions env st).2
  /\ selected_by env st `sublist_of` conditionalExtensions (self st).
Proof.
  unfold selected_by. rewrite !prepare_extensions_run.
  change (interrupted env (with_extensions st l) (files (with_extensions st l)))
    with (with_extensions (interrupted env st (files st)) l).
  change (platform_builder env (with_extensions st l))
    with (platform_builder env st).
  change (conditionalExtensions (self (with_extensions st l)))
    with (conditionalExtensions (self st)).
  rewrite filterM_with_extensions.
  destruct (filterM_cases (platform_builder env st)
              (conditionalExtensions (self st)) (interrupted env st (files st)))
    as [(vs & fs' & _ & Hrun)|(e & fs' & _ & Hrun)]; rewrite Hrun; cbn.
  - repeat split; try reflexivity. apply select_sublist.
  - repeat split; try reflexivity. apply sublist_nil_l.
Qed.

Lemma copies_add n m (items : list macro) :
  copies (n + m) items = copies n items ++ copies m items.
Proof.
  induction n as [|n IH]; cbn [copies Nat.add]; [reflexivity|].
  by rewrite IH, app_assoc.
Qed.

Lemma prepare_extensions_lists env st r :
  lists (prepare_extensions env st).2 !! r
  = (fun l => l ++ copies (references r (selected_by env st)) (platform_macros env))
      <$> lists st !! r.
Proof.
  unfold selected_by.
  destruct (prepare_extensions_cases env st)
    as [(vs & fs' & _ & Hrun)|(e & fs' & _ & Hrun)]; rewrite Hrun;
    cbn [snd prepared interrupted self extensions lists].
  - apply extend_all_lookup.
  - cbn [references filter length copies].
    destruct (lists st !! r); cbn; [by rewrite app_nil_r|done].
Qed.

Lemma prepare_extensions_builder env st :
  builder (self (prepare_extensions env st).2) = platform_builder env st.
Proof.
  destruct (prepare_extensions_cases env st)
    as [(vs & fs' & _ & Hrun)|(e & fs' & _ & Hrun)]; rewrite Hrun; reflexivity.
Qed.

(** X7.  [prepare_extensions] replaces [self.define_macros]: whatever the
    list held, it holds the platform macros afterwards, and a second run
    leaves it so.  The lists of the extensions are extended, not replaced: a
    second run appends the platform macros once more for every extension it
    selects, so a list ends with as many copies as the two runs selected
    holders of it. *)
Theorem prepare_extensions_twice env st :
  let st1 := (prepare_extensions env st).2 in
  let st2 := (prepare_extensions env st1).2 in
  define_macros (builder (self st1)) = platform_macros env
  /\ builder (self st2) = builder (self st1)
  /\ forall r,
       lists st2 !! r
       = (fun l => l ++ copies (references r (selected_by env st)
                                + references r (selected_by env st1))
                          (platform_macros env))
           <$> lists st !! r.
Proof.
  intros st1 st2. subst st1 st2. split; [|split].
  - by rewrite prepare_extensions_builder.
  - rewrite !prepare_extensions_builder. unfold platform_builder.
    by rewrite prepare_extensions_builder.
  - intros r. rewrite !prepare_extensions_lists.
    destruct (lists st !! r) as [l|]; cbn; [|reflexivity].
    rewrite copies_add, app_assoc. reflexivity.
Qed.

Lemma select_elem_of b x v :
  (forall fs, call (condition x) b fs = (inr v, fs)) ->
  forall xs fs vs fs',
    conditions_return b xs fs vs fs' ->
    x ∈ select xs vs <-> x ∈ xs /\ v = true.
Proof.
  intros Hx xs fs vs fs'.
  induction 1 as [fs|y xs fs v0 fs1 vs fs' Hcall _ IH]; cbn [select].
  - rewrite elem_of_nil. tauto.
  - assert (Hy : x = y -> v0 = v).
    { intros <-. rewrite Hx in Hcall. congruence. }
    destruct v0; rewrite ?elem_of_cons, IH.
    + split; [intros [E|[? ?]]|intros [[E|?] ?]]; auto.
      split; [by left|]. symmetry. by apply Hy.
    + split; [intros [? ?]|intros [[E|?] ?]]; auto.
      specialize (Hy E). congruence.
Qed.

(** X8.  An extension whose condition does not depend on the files and does
    not touch them, as the conditions of the module and the default
    condition of [ConditionalExtension] do, is selected by a run of
    [prepare_extensions] that returns exactly when it is declared and its
    condition returns [True], whatever the other conditions did to the
    files. *)
Theorem constant_condition_selected env st st' x v :
  prepare_extensions env st = (inr tt, st') ->
  (forall fs, call (condition x) (builder (self st')) fs = (inr v, fs)) ->
  x ∈ extensions (self st') <-> x ∈ conditionalExtensions (self st) /\ v = true.
Proof.
  intros Hrun Hx.
  destruct (prepare_extensions_cases env st)
    as [(vs & fs' & Hret & Hrun')|(e & fs' & _ & Hrun')];
    rewrite Hrun' in Hrun; [|discriminate].
  injection Hrun as <-. cbn [prepared self extensions builder] in *.
  eapply select_elem_of; eassumption.
Qed.

Lemma constant_condition_selected_witness :
  raiser windows_cpython ∈ extensions (self windows_prepared) <->
  raiser windows_cpython ∈ conditionalExtensions (self windows_build)
  /\ true = true.
Proof.
  apply (constant_condition_selected windows_cpython windows_build
           windows_prepared (raiser windows_cpython) true).
  - reflexivity.
  - intros fs. reflexivity.
Defined.

(** ** The extensions of the module *)

Lemma EXTENSIONS_return env b fs :
  conditions_return b (_EXTENSIONS env) fs
    [_isCPython env; py_and (_isCPython env) (sys_platform env =? "win32")] fs.
Proof.
  econstructor; [reflexivity|]. econstructor; [reflexivity|]. constructor.
Qed.

Lemma EXTENSIONS_run env st :
  conditionalExtensions (self st) = _EXTENSIONS env ->
  prepare_extensions env st
  = (inr tt, prepared env st (EXTENSIONS_selection env) (files st)).
Proof.
  intros HcE.
  pose proof (EXTENSIONS_return env (platform_builder env st) (files st)) as Hret.
  rewrite <- HcE in Hret.
  rewrite (prepare_extensions_returns env st _ _ Hret). rewrite HcE.
  unfold EXTENSIONS_selection. cbn [_EXTENSIONS select].
  by destruct (_isCPython env), (sys_platform env =? "win32").
Qed.

(** X9.  With the extensions of the module as [conditionalExtensions],
    [prepare_extensions] returns on every platform, with every compiler and
    in every state of the builder, without touching a file; it selects
    [twisted.test.raiser] when the implementation is CPython, and
    [iocpsupport] after it when moreover [sys.platform] is ["win32"]. *)
Theorem EXTENSIONS_prepared env st :
  conditionalExtensions (self st) = _EXTENSIONS env ->
  exists st',
    prepare_extensions env st = (inr tt, st')
    /\ files st' = files st
    /\ extensions (self st')
       = (if _isCPython env then [raiser env] else [])
         ++ (if py_and (_isCPython env) (sys_platform env =? "win32")
             then [iocpsupport env] else []).
Proof.
  intros HcE. eexists. split; [exact (EXTENSIONS_run env st HcE)|].
  split; reflexivity.
Qed.

Lemma EXTENSIONS_prepared_witness :
  exists st',
    prepare_extensions linux_cpython (initial linux_cpython broken_compiler)
    = (inr tt, st')
    /\ files st' = files (initial linux_cpython broken_compiler)
    /\ extensions (self st') = [raiser linux_cpython].
Proof.
  apply (EXTENSIONS_prepared linux_cpython
           (initial linux_cpython broken_compiler)).
  reflexivity.
Defined.

(** X10.  With the extensions of the module, [build_extensions] on an
    implementation other than CPython selects no extension, hands none to
    the step it inherits and returns: no file is touched and no list of
    macros is changed, whatever the compiler would do. *)
Theorem EXTENSIONS_built env st :
  conditionalExtensions (self st) = _EXTENSIONS env ->
  python_implementation env <> "CPython" ->
  exists st',
    build_extensions env st = (inr tt, st')
    /\ build_extensions env st = build_ext_build_extensions st'
    /\ extensions (self st') = []
    /\ files st' = files st
    /\ lists st' = lists st.
Proof.
  intros HcE Hpy.
  pose proof (EXTENSIONS_run env st HcE) as Hrun.
  assert (Hnone : EXTENSIONS_selection env = []).
  { unfold EXTENSIONS_selection, _isCPython, _checkCPython.
    apply String.eqb_neq in Hpy. by rewrite Hpy. }
  rewrite Hnone in Hrun.
  exists (prepared env st [] (files st)).
  assert (Hbuild : build_extensions env st
                   = build_ext_build_extensions (prepared env st [] (files st))).
  { unfold build_extensions, bind. by rewrite Hrun. }
  split; [by rewrite Hbuild|]. split; [exact Hbuild|].
  repeat split.
Qed.

Lemma EXTENSIONS_built_witness :
  exists st',
    build_extensions linux_pypy (initial linux_pypy broken_compiler)
    = (inr tt, st')
    /\ build_extensions linux_pypy (initial linux_pypy broken_compiler)
       = build_ext_build_extensions st'
    /\ extensions (self st') = []
    /\ files st' = files (initial linux_pypy broken_compiler)
    /\ lists st' = lists (initial linux_pypy broken_compiler).
Proof.
  apply (EXTENSIONS_built linux_pypy (initial linux_pypy broken_compiler)).
  - reflexivity.
  - discriminate.
Defined.

(** X11.  With the extensions of the module, a run of [prepare_extensions]
    appends the platform macros to the [define_macros] of
    [twisted.test.raiser] exactly when the implementation is CPython, and
    to those of [iocpsupport] exactly when moreover [sys.platform] is
    ["win32"], once each: the two extensions hold different lists. *)
Theorem EXTENSIONS_macros env st l1 l2 :
  conditionalExtensions (self st) = _EXTENSIONS env ->
  define_macros_in st (raiser env) = Some l1 ->
  define_macros_in st (iocpsupport env) = Some l2 ->
  let st' := (prepare_extensions env st).2 in
  define_macros_in st' (raiser env)
  = Some (l1 ++ if _isCPython env then platform_macros env else [])
  /\ define_macros_in st' (iocpsupport env)
     = Some (l2 ++ if py_and (_isCPython env) (sys_platform env =? "win32")
                   then platform_macros env else []).
Proof.
  intros HcE H1 H2 st'. subst st'. unfold define_macros_in in *.
  rewrite !prepare_extensions_lists, H1, H2. unfold selected_by.
  rewrite (EXTENSIONS_run env st HcE).
  cbn [prepared self extensions]. unfold EXTENSIONS_selection.
  cbn [raiser iocpsupport base ext_define_macros fmap option_fmap option_map].
  destruct (_isCPython env), (sys_platform env =? "win32");
    cbn; repeat case_decide; try done; cbn; rewrite ?app_nil_r;
    split; reflexivity.
Qed.

Lemma EXTENSIONS_macros_witness :
  define_macros_in windows_prepared (raiser windows_cpython)
  = Some [("WIN32", MInt 1)]
  /\ define_macros_in windows_prepared (iocpsupport windows_cpython)
     = Some [("WIN32", MInt 1)].
Proof.
  apply (EXTENSIONS_macros windows_cpython windows_build [] []); reflexivity.
Defined.

(** ** The arguments of [setup()], computed *)

(** X12.  [getSetupArgs] raises [FileNotFoundError] exactly when there is no
    file at the readme path, and never changes a file.  Otherwise its
    dictionary has what [find_packages("src")] lists at ["packages"] and the
    rewritten readme at ["long_description"]; its keys are those of
    [STATIC_PACKAGE_METADATA] and the five computed ones, none of which the
    static metadata replaces. *)
Theorem getSetupArgs_computed find_packages extensions readme (fs : FS) :
  match fs !! readme with
  | Some text =>
      exists args,
        getSetupArgs find_packages extensions readme fs = (inr args, fs)
        /\ args !! "packages" = Some (strs (find_packages "src" fs))
        /\ args !! "long_description"
           = Some (VStr (Re.sub true readme_link github_link text))
        /\ (forall key,
              is_Some (args !! key) <->
              is_Some (STATIC_PACKAGE_METADATA !! key)
              \/ key ∈ ["packages"; "long_description"; "ext_modules";
                        "cmdclass"; "extras_require"])
        /\ (forall key,
              key ∈ ["packages"; "long_description"; "ext_modules";
                     "cmdclass"; "extras_require"] ->
              STATIC_PACKAGE_METADATA !! key = None)
  | None =>
      getSetupArgs find_packages extensions readme fs
      = (inl FileNotFoundError, fs)
  end.
Proof.
  unfold getSetupArgs, bind, get, _longDescriptionFromReadme, bind, read_file,
    ret.
  destruct (fs !! readme) as [text|]; [|reflexivity].
  generalize (Re.sub true readme_link github_link text) as long_description.
  generalize (find_packages "src" fs) as packages.
  intros packages long_description.
  eexists. split; [reflexivity|].
  split; [by rewrite lookup_union_r|]. split; [by rewrite lookup_union_r|].
  split.
  - intros key. rewrite lookup_union_is_Some. unfold dict. cbn [foldl fst snd].
    rewrite !lookup_insert_is_Some, lookup_empty, !elem_of_cons, elem_of_nil.
    split.
    + intros [H|H]; [by left|right].
      repeat (destruct H as [H|[_ H]]; [subst; tauto|]).
      by destruct H.
    + intros [H|H]; [by left|right].
      destruct (decide ("extras_require" = key)); [by left|right; split; [done|]].
      destruct (decide ("cmdclass" = key)); [by left|right; split; [done|]].
      destruct (decide ("ext_modules" = key)); [by left|right; split; [done|]].
      destruct (decide ("long_description" = key));
        [by left|right; split; [done|]].
      destruct (decide ("packages" = key)); [by left|right; split; [done|]].
      exfalso. intuition congruence.
  - intros key Hkey. rewrite !elem_of_cons, elem_of_nil in Hkey.
    destruct Hkey as [->|[->|[->|[->|[->|[]]]]]]; reflexivity.
Qed.

(** ** Every readme *)

Lemma char_gt a : Re.in_charset true (Re.Char ">") a = Ascii.eqb a ">".
Proof. by_cases_on a. Qed.

Lemma char_underscore a : Re.in_charset true (Re.Char "_") a = Ascii.eqb a "_".
Proof. by_cases_on a. Qed.

Lemma plus_loop_None {R} p u X (k : list ascii -> option R) :
  Re.plus_loop R p (u ++ X) k = None ->
  u <> [] -> Forall (fun a => p a = true) u -> k X = None.
Proof.
  induction u as [|a u IH]; intros Hloop Hne Hall; [done|].
  inversion Hall as [|? ? Ha Hu]; subst. cbn in Hloop. rewrite Ha in Hloop.
  destruct (Re.plus_loop R p (u ++ X) k) eqn:E; [discriminate|].
  destruct u as [|b u]; [exact Hloop|].
  apply IH; [reflexivity|discriminate|assumption].
Qed.

(** Where a repetition succeeds it has taken a run of characters, the
    continuation succeeds behind the run, and fails behind every longer
    run. *)
Lemma plus_loop_Some {R} p (k : list ascii -> option R) r : forall s,
  Re.plus_loop R p s k = Some r ->
  exists u X,
    s = u ++ X /\ u <> [] /\ Forall (fun a => p a = true) u /\ k X = Some r
    /\ forall u2 X2,
         s = u2 ++ X2 -> length u < length u2 ->
         Forall (fun a => p a = true) u2 -> k X2 = None.
Proof.
  induction s as [|a s IH]; [discriminate|]. cbn [Re.plus_loop].
  destruct (p a) eqn:Ha; [|discriminate].
  destruct (Re.plus_loop R p s k) as [r'|] eqn:E.
  - intros H. injection H as ->.
    destruct (IH eq_refl) as (u & X & -> & Hne & Hall & Hk & Hmax).
    exists (a :: u), X. repeat split; try done.
    + by constructor.
    + intros [|b u2] X2 Heq Hlen Hall2; [cbn in Hlen; lia|].
      injection Heq as <- Heq. inversion Hall2; subst.
      apply (Hmax u2 X2); [assumption|cbn in Hlen; lia|assumption].
  - intros Hk. exists [a], s. repeat split; try done.
    + by repeat constructor.
    + intros [|b [|c u2]] X2 Heq Hlen Hall2; cbn in Hlen; try lia.
      injection Heq as <- ->. inversion Hall2; subst.
      apply (plus_loop_None p (c :: u2) X2 k E); [discriminate|assumption].
Qed.

Lemma Forall_not_char c (p : ascii -> bool) l :
  (forall a, p a = negb (Ascii.eqb a c)) ->
  Forall (fun a => p a = true) l -> Forall (fun a => a <> c) l.
Proof.
  intros Hp H. eapply Forall_impl; [exact H|]. intros a Ha E. subst a.
  rewrite Hp, Ascii.eqb_refl in Ha. discriminate.
Qed.

(** What the pattern has matched when [link_tail] succeeds. *)
Lemma link_tail_Some s1 s2 s3 rest groups :
  link_tail s1 s2 s3 = Some (rest, groups) ->
  exists target,
    s3 = "<"%char :: target ++ chars ">`_" ++ rest
    /\ target <> [] /\ Forall (fun a => not_gt a = true) target
    /\ absolute target = false
    /\ groups = [take (length s1 - length s2) s1; target].
Proof.
  destruct s3 as [|a s4]; [discriminate|]. cbn [link_tail]. rewrite char_lt.
  destruct (Ascii.eqb a "<") eqn:Ea; [|discriminate].
  apply Ascii.eqb_eq in Ea. subst a.
  rewrite absolute_url_ahead. destruct (absolute s4) eqn:Habs; [discriminate|].
  intros H. apply plus_loop_Some in H as (t & s5 & -> & Hne & Hall & Hk & _).
  exists t. cbn [Re.run Re.literal Re.seq fold_right map list_ascii_of_string]
    in Hk.
  destruct s5 as [|a1 s5]; [discriminate|]. rewrite char_gt in Hk.
  destruct (Ascii.eqb a1 ">") eqn:E1; [|discriminate].
  destruct s5 as [|a2 s5]; [discriminate|]. rewrite char_backquote in Hk.
  destruct (Ascii.eqb a2 "`") eqn:E2; [|discriminate].
  destruct s5 as [|a3 s5]; [discriminate|]. rewrite char_underscore in Hk.
  destruct (Ascii.eqb a3 "_") eqn:E3; [|discriminate].
  apply Ascii.eqb_eq in E1, E2, E3. subst a1 a2 a3.
  injection Hk as <- <-.
  change (">"%char :: "`"%char :: "_"%char :: s5) with (chars ">`_" ++ s5) in *.
  rewrite absolute_target in Habs.
  repeat split; try done. by rewrite take_app_minus.
Qed.

Lemma space_is_not_backquote a : space a = true -> not_backquote a = true.
Proof.
  intros H. rewrite char_not_backquote. by rewrite (space_not_backquote a H).
Qed.

(** Every match of the pattern is a link: the label takes the white space
    behind it but for its last character. *)
Lemma match_at_readme_link_Some s rest groups :
  Re.match_at true readme_link s = Some (rest, groups) ->
  exists label w target,
    s = "`"%char :: label ++ w :: "<"%char :: target ++ chars ">`_" ++ rest
    /\ groups = [label; target]
    /\ label <> [] /\ Forall (fun a => a <> "`"%char) label
    /\ Re.is_space w = true
    /\ target <> [] /\ Forall (fun a => a <> ">"%char) target
    /\ absolute target = false.
Proof.
  rewrite match_at_readme_link. destruct s as [|a s1]; [discriminate|].
  rewrite char_backquote. destruct (Ascii.eqb a "`") eqn:Ea; [|discriminate].
  apply Ascii.eqb_eq in Ea. subst a. intros H.
  apply plus_loop_Some in H as (label & s2 & Hs1 & Hne & Hall & Hk & Hmax).
  apply plus_loop_Some in Hk as (ws & s3 & Hs2 & Hws & Hsp & Hk & _).
  apply link_tail_Some in Hk as (target & Hs3 & Ht & Htall & Habs & Hg).
  destruct ws as [|w ws]; [done|].
  apply Forall_cons in Hsp as [Hw Hsp'].
  assert (ws = []) as ->.
  { destruct ws as [|w2 ws]; [reflexivity|]. exfalso.
    assert (Hlater : Re.plus_loop Match space ((w2 :: ws) ++ s3)
                       (link_tail s1 ((w2 :: ws) ++ s3)) = None).
    { apply (Hmax (label ++ [w]) ((w2 :: ws) ++ s3)).
      - rewrite Hs1, Hs2, <- app_assoc. reflexivity.
      - rewrite length_app. cbn. lia.
      - apply Forall_app. split; [exact Hall|].
        repeat constructor. by apply space_is_not_backquote. }
    erewrite plus_loop_first in Hlater; [discriminate|discriminate|exact Hsp'| |].
    - rewrite Hs3. cbn [Re.plus_loop]. change (space "<") with false. reflexivity.
    - rewrite Hs3. apply link_tail_match; [by rewrite absolute_target|done..]. }
  exists label, w, target. subst s1 s2 s3. cbn [app].
  rewrite take_app_minus in Hg.
  repeat split; try done.
  - eapply Forall_not_char; [apply char_not_backquote|exact Hall].
  - eapply Forall_not_char; [apply char_not_gt|exact Htall].
Qed.

(** X13.  In every text, whatever the pattern of [_longDescriptionFromReadme]
    matches is a link: a backquote, a label that is not empty and has no
    backquote, one character of white space, [<], a target that is not empty,
    has no [>] and does not begin with [http://] or [https://] in any letter
    case, and [>`_]; the groups are the label and the target.  White space
    before the last such character belongs to the label. *)
Theorem readme_link_match s rest groups :
  Re.match_at true readme_link s = Some (rest, groups) ->
  exists label w target,
    s = "`"%char :: label ++ w :: "<"%char :: target ++ chars ">`_" ++ rest
    /\ groups = [label; target]
    /\ label <> [] /\ Forall (fun a => a <> "`"%char) label
    /\ Re.is_space w = true
    /\ target <> [] /\ Forall (fun a => a <> ">"%char) target
    /\ absolute target = false.
Proof. apply match_at_readme_link_Some. Qed.

Lemma readme_link_match_witness :
  exists label w target,
    chars "`NEWS <NEWS.rst>`_." =
    "`"%char :: label ++ w :: "<"%char :: target ++ chars ">`_" ++ chars "."
    /\ [chars "NEWS"; chars "NEWS.rst"] = [label; target]
    /\ label <> [] /\ Forall (fun a => a <> "`"%char) label
    /\ Re.is_space w = true
    /\ target <> [] /\ Forall (fun a => a <> ">"%char) target
    /\ absolute target = false.
Proof.
  apply (readme_link_match (chars "`NEWS <NEWS.rst>`_.") (chars ".")
           [chars "NEWS"; chars "NEWS.rst"]).
  vm_compute. reflexivity.
Defined.

(** The substitution at a match. *)
Lemma resub_match label w target rest :
  Re.match_at true readme_link
    ("`"%char :: label ++ w :: "<"%char :: target ++ chars ">`_" ++ rest)
  = Some (rest, [label; target]) ->
  resub 0 ("`"%char :: label ++ w :: "<"%char :: target ++ chars ">`_" ++ rest)
  = "`"%char :: label ++ " "%char :: "<"%char :: chars trunk ++ target
      ++ chars ">`_" ++ resub 0 rest.
Proof.
  intros Hm. cbn [Re.sub_from]. rewrite Hm.
  set (W := label ++ [w; "<"%char] ++ target ++ chars ">`_").
  assert (E : label ++ w :: "<"%char :: target ++ chars ">`_" ++ rest = W ++ rest).
  { subst W. rewrite <- !app_assoc. reflexivity. }
  rewrite E.
  replace (length ("`"%char :: W ++ rest) <=? length rest)%nat with false.
  2:{ symmetry. apply Nat.leb_gt. cbn [length]. rewrite length_app. lia. }
  replace (length (W ++ rest) - length rest) with (length W)
    by (rewrite length_app; lia).
  rewrite resub_skip.
  cbn [Re.expand github_link map concat nth Nat.sub].
  rewrite app_nil_r, <- !app_assoc. reflexivity.
Qed.

Lemma resub_rewritten n : forall s, length s <= n -> rewritten s (resub 0 s).
Proof.
  induction n as [|n IH]; intros [|a s] Hn; cbn [length] in Hn; try lia;
    try apply rewritten_nil.
  destruct (Re.match_at true readme_link (a :: s)) as [[rest groups]|] eqn:Hm.
  - destruct (match_at_readme_link_Some _ _ _ Hm)
      as (label & w & target & Hs & -> & Hl & Hlall & Hw & Ht & Htall & Habs).
    rewrite Hs in Hm |- *. rewrite (resub_match _ _ _ _ Hm).
    apply rewritten_link; try assumption. apply IH.
    apply (f_equal (@length ascii)) in Hs. cbn [length] in Hs.
    rewrite length_app in Hs. cbn [length] in Hs. rewrite !length_app in Hs. lia.
  - rewrite resub_keep by exact Hm. apply rewritten_keep, IH. lia.
Qed.

(** X14.  For every readme, of whatever form, [_longDescriptionFromReadme]
    returns the text in which some links to targets that are not absolute
    have got the address of the repository before the target and a blank
    before the [<]: nothing else is changed, no character is removed, and no
    link whose target begins with [http://] or [https://] is touched.  The
    files are unchanged, and without a file at the path the call raises
    [FileNotFoundError]. *)
Theorem longDescription_only_rewrites_links readme (fs : FS) :
  match fs !! readme with
  | Some text =>
      exists long,
        _longDescriptionFromReadme readme fs = (inr long, fs)
        /\ rewritten (chars text) (chars long)
  | None => _longDescriptionFromReadme readme fs = (inl FileNotFoundError, fs)
  end.
Proof.
  unfold _longDescriptionFromReadme, bind, read_file, ret, Re.sub.
  destruct (fs !! readme) as [text|]; [|reflexivity].
  eexists. split; [reflexivity|].
  rewrite list_ascii_of_string_of_list_ascii.
  by apply (resub_rewritten (length (chars text))).
Qed.

Lemma rewritten_without c s t :
  rewritten s t ->
  c ∈ chars "`<>_" -> c ∉ s -> t = s.
Proof.
  intros H Hc. induction H as [|a s t _ IH|label w target s t _ _ _ _ _ _ _ _].
  - reflexivity.
  - intros Hn. rewrite IH; [reflexivity|].
    intros Hs. apply Hn. by right.
  - intros Hn. exfalso. apply Hn.
    cbn in Hc. rewrite !elem_of_cons in Hc.
    destruct Hc as [->|[->|[->|[->|Hc]]]]; [| | | |by apply elem_of_nil in Hc].
    + left.
    + right. apply elem_of_app. right. right. left.
    + right. apply elem_of_app. right. right. right.
      apply elem_of_app. right. left.
    + right. apply elem_of_app. right. right. right.
      apply elem_of_app. right. right. right. left.
Qed.

(** X15.  A readme in which one of the characters backquote, [<], [>] and
    [_] does not occur is returned as it is. *)
Theorem longDescription_unchanged readme (fs : FS) text c :
  fs !! readme = Some text ->
  c ∈ chars "`<>_" -> c ∉ chars text ->
  _longDescriptionFromReadme readme fs = (inr text, fs).
Proof.
  intros Hfile Hc Hn.
  unfold _longDescriptionFromReadme, bind, read_file, ret, Re.sub.
  rewrite Hfile.
  rewrite (rewritten_without c (chars text) _
             (resub_rewritten _ _ (le_n _)) Hc Hn).
  by rewrite string_of_list_ascii_of_string.
Qed.

Lemma longDescription_unchanged_witness :
  _longDescriptionFromReadme "README.rst" plain_files
  = (inr plain_readme, plain_files).
Proof.
  apply (longDescription_unchanged "README.rst" plain_files plain_readme
           "_"%char).
  - reflexivity.
  - cbn. rewrite !elem_of_cons. tauto.
  - cbn. rewrite !elem_of_cons, elem_of_nil. intros H.
    repeat (destruct H as [H|H]; [discriminate|]). exact H.
Defined.

(** ** Rewriting twice *)

Lemma has_app a s1 s2 : has a (s1 +:+ s2) = has a s1 || has a s2.
Proof. unfold has. by rewrite chars_app, existsb_app. Qed.

Lemma is_absolute_trunk target : is_absolute (trunk +:+ target) = true.
Proof.
  unfold is_absolute. rewrite chars_app. apply orb_true_iff. right. reflexivity.
Qed.

Lemma github_item_well_formed i :
  well_formed i = true ->
  well_formed (github_item i) = true
  /\ github_item (github_item i) = github_item i.
Proof.
  destruct i as [a|label target]; [done|]. intros Hwf. cbn [github_item].
  destruct (is_absolute target) eqn:Habs.
  - cbn [github_item]. by rewrite Habs.
  - fold trunk. cbn [github_item]. rewrite is_absolute_trunk.
    split; [|reflexivity]. cbn [well_formed] in *.
    apply andb_true_iff in Hwf as [Hwf Hgt].
    apply andb_true_iff in Hwf as [Hwf Hlt].
    apply andb_true_iff in Hwf as [Hwf Hempty].
    rewrite Hwf, !has_app. apply negb_true_iff in Hgt, Hlt.
    rewrite Hgt, Hlt. reflexivity.
Qed.

Lemma github_doc_well_formed doc :
  forallb well_formed doc = true ->
  forallb well_formed (map github_item doc) = true
  /\ map github_item (map github_item doc) = map github_item doc
  /\ Forall (fun target => is_absolute target = true)
       (targets (map github_item doc)).
Proof.
  induction doc as [|i doc IH]; intros Hwf; [by repeat split|].
  cbn [forallb map] in *. apply andb_true_iff in Hwf as [Hi Hwf].
  destruct (IH Hwf) as (IH1 & IH2 & IH3).
  destruct (github_item_well_formed i Hi) as [H1 H2].
  rewrite H1, IH1, H2, IH2. repeat split.
  destruct i as [a|label target]; [exact IH3|].
  cbn [github_item]. destruct (is_absolute target) eqn:Habs.
  - cbn. constructor; assumption.
  - cbn. constructor; [apply is_absolute_trunk|assumption].
Qed.

(** X16.  For a readme made of well-formed links and of other characters,
    every link of the long description has an absolute target, and the long
    description of the long description is the long description. *)
Theorem longDescription_again readme (fs : FS) doc :
  forallb well_formed doc = true ->
  fs !! readme = Some (render doc) ->
  exists long,
    _longDescriptionFromReadme readme fs = (inr long, fs)
    /\ long = render (map github_item doc)
    /\ Forall (fun target => is_absolute target = true)
         (targets (map github_item doc))
    /\ _longDescriptionFromReadme readme (<[readme := long]> fs)
       = (inr long, <[readme := long]> fs).
Proof.
  intros Hwf Hfile.
  destruct (github_doc_well_formed doc Hwf) as (Hwf' & Hidem & Habs).
  exists (render (map github_item doc)).
  unfold _longDescriptionFromReadme, bind, read_file, ret, Re.sub.
  rewrite Hfile, lookup_insert_eq.
  rewrite !resub_render by assumption. rewrite Hidem.
  by rewrite string_of_list_ascii_of_string.
Qed.

Lemma longDescription_again_witness :
  exists long,
    _longDescriptionFromReadme "README.rst" sample_files = (inr long, sample_files)
    /\ long = render (map github_item sample_readme)
    /\ Forall (fun target => is_absolute target = true)
         (targets (map github_item sample_readme))
    /\ _longDescriptionFromReadme "README.rst" (<["README.rst" := long]> sample_files)
       = (inr long, <["README.rst" := long]> sample_files).
Proof.
  apply (longDescription_again "README.rst" sample_files sample_readme);
    reflexivity.
Defined.

(** Other readmes can be rewritten twice: a target with a [<] in it becomes
    part of a longer link to a file once its tail is absolute. *)
Lemma longDescription_not_idempotent :
  let long text :=
    (_longDescriptionFromReadme "README.rst" (<["README.rst" := text]> ∅)).1 in
  long "`x <a <b>`_" = inr ("`x <a <" +:+ trunk +:+ "b>`_")
  /\ long ("`x <a <" +:+ trunk +:+ "b>`_")
     = inr ("`x <" +:+ trunk +:+ "a <" +:+ trunk +:+ "b>`_").
Proof. split; vm_compute; reflexivity. Qed.
